(** * Verification of [gemini_webapi.utils.get_access_token]

  A shallow embedding of [src/gemini_webapi/utils/get_access_token.py]:
  the credential race that collects candidate cookie sets from the base
  cookies, the on-disk cache and the browser store, probes each of them
  and returns the first one whose response carries the [SNlM0e] marker.

  Python [str] values are modelled as [string] (a sequence of bytes, the
  UTF-8 encoding of the text): every character the code inspects (the
  quote, the newline, the dot, the slash and the fixed file-name prefix)
  is a single ASCII byte that never occurs inside a multi-byte sequence,
  so searching and slicing behave as on code points. *)

From Stdlib Require Import Ascii String DecimalString.
From stdpp Require Import base option list strings gmap fin_maps.

(** ** Python string operations used by the source *)

Module Str.

(** [s[n:]] *)
Fixpoint drop (n : nat) (s : string) : string :=
  match n, s with
  | O, _ => s
  | S n', String _ r => drop n' r
  | S _, EmptyString => EmptyString
  end.

(** [s[:n]] *)
Fixpoint take (n : nat) (s : string) : string :=
  match n, s with
  | O, _ => EmptyString
  | S n', String c r => String c (take n' r)
  | S _, EmptyString => EmptyString
  end.

(** [s.startswith(p)] *)
Fixpoint startswith (p s : string) : bool :=
  match p, s with
  | EmptyString, _ => true
  | String a p', String b s' => bool_decide (a = b) && startswith p' s'
  | String _ _, EmptyString => false
  end.

(** [s.endswith(p)] *)
Definition endswith (p s : string) : bool :=
  bool_decide (String.length p ≤ String.length s)
  && bool_decide (drop (String.length s - String.length p) s = p).

(** [c in s] for a single character [c] *)
Fixpoint contains (c : ascii) (s : string) : bool :=
  match s with
  | EmptyString => false
  | String a r => bool_decide (a = c) || contains c r
  end.

(** [s.rfind(c)] for a single character [c]; [None] stands for [-1] *)
Fixpoint rfind (c : ascii) (s : string) : option nat :=
  match s with
  | EmptyString => None
  | String a r =>
      match rfind c r with
      | Some i => Some (S i)
      | None => if bool_decide (a = c) then Some 0 else None
      end
  end.

(** [s.split(c)] for a single character [c] *)
Fixpoint split (c : ascii) (s : string) : list string :=
  match s with
  | EmptyString => [EmptyString]
  | String a r =>
      if bool_decide (a = c) then EmptyString :: split c r
      else match split c r with
           | x :: xs => String a x :: xs
           | [] => [String a EmptyString]
           end
  end.

(** truth value of a [str]: the empty string is falsy *)
Definition truthy (s : string) : bool := negb (bool_decide (s = EmptyString)).

(** [str(n)] for a non-negative [int] *)
Definition of_nat (n : nat) : string := NilZero.string_of_uint (Nat.to_uint n).

End Str.

(** ** The part of [pathlib] the source relies on (POSIX flavour) *)

Module Path.

(** A path is the list of its components below the anchor. *)
Definition t : Type := list string.

(** Components of one path segment: split on the separator, dropping
    empty components and single dots, as [PurePosixPath] parsing does. *)
Definition parse_parts (seg : string) : list string :=
  filter (λ c, c ≠ EmptyString ∧ c ≠ "."%string) (Str.split "/" seg).

(** [p / seg] for a relative segment [seg] (every segment the source
    joins starts with [.cached_1psidts_], hence is relative) *)
Definition joinpath (p : t) (seg : string) : t := p ++ parse_parts seg.

(** [p.name]: the final component *)
Definition name (p : t) : string := List.last p EmptyString.

(** [p.stem]: the final component without its suffix,
    [name[:i] if 0 < i < len(name) - 1 else name] with [i = name.rfind('.')] *)
Definition stem (p : t) : string :=
  let name := name p in
  match Str.rfind "." name with
  | Some i =>
      if bool_decide (0 < i) && bool_decide (i < String.length name - 1)
      then Str.take i name else name
  | None => name
  end.

(** The pattern of [cache_dir.glob(".cached_1psidts_*.txt")] against one
    directory entry: the fixed prefix, anything, the fixed extension. *)
Definition glob_match (entry : string) : bool :=
  Str.startswith ".cached_1psidts_" entry
  && Str.endswith ".txt" (Str.drop 16 entry).

End Path.

(** ** The regular expression search of the race loop

  The pattern is: quote, SNlM0e, quote, colon, quote, a lazy group of
  any characters but the newline, quote. *)

Module Re.

Definition dquote : ascii := "034"%char.
Definition newline : ascii := "010"%char.

(** The literal head of the pattern: quote, [SNlM0e], quote, colon, quote. *)
Definition marker_head : string :=
  String dquote ("SNlM0e" +:+ String dquote (String ":" (String dquote EmptyString))).

(** The lazy group followed by the closing quote: the shortest run of
    characters other than a newline that is followed by a quote; the run
    is group 1. *)
Fixpoint lazy_group (s : string) : option string :=
  match s with
  | EmptyString => None
  | String c r =>
      if bool_decide (c = dquote) then Some EmptyString
      else if bool_decide (c = newline) then None
      else String c <$> lazy_group r
  end.

(** A match anchored at the start of [s]. *)
Definition match_here (s : string) : option string :=
  if Str.startswith marker_head s
  then lazy_group (Str.drop (String.length marker_head) s)
  else None.

(** [re.search]: the leftmost position at which the pattern matches;
    the result is [match.group(1)]. *)
Fixpoint search (s : string) : option string :=
  match match_here s, s with
  | Some g, _ => Some g
  | None, String _ r => search r
  | None, EmptyString => None
  end.

End Re.

(** ** Results, exceptions and the object store *)

(** The subclasses of [Exception] that can occur in a run.  [OtherError]
    stands for any further subclass ([OSError], [UnicodeDecodeError],
    [httpx.TransportError], ...); its argument names it.  Exceptions
    outside [Exception] (interrupts, task cancellation) are not modelled. *)
Inductive exn : Type :=
| AuthError (msg : string)
| ImportError
| HTTPStatusError (status_code : nat)
| OtherError (descr : string).

Inductive result (A : Type) : Type :=
| Return (a : A)
| Raise (e : exn).
Arguments Return {A} a.
Arguments Raise {A} e.

(** A cookie dict maps cookie names to values: [gmap string string].
    Python dicts are objects: a variable holds a reference.  The store maps
    each reference (an index) to the current contents of the dict. *)
Abbreviation loc := nat (only parsing).
Abbreviation store := (list (gmap string string)) (only parsing).

(** Computations that read and write the store and may raise. *)
Definition M (A : Type) : Type := store → result A * store.

Definition ret {A} (a : A) : M A := λ h, (Return a, h).
Definition raise {A} (e : exn) : M A := λ h, (Raise e, h).
Definition bind {A B} (c : M A) (k : A → M B) : M B :=
  λ h, match c h with
       | (Return a, h') => k a h'
       | (Raise e, h') => (Raise e, h')
       end.
Definition lift {A} (r : result A) : M A := λ h, (r, h).

(** [try: c  except Exception as e: handler e] *)
Definition try_except {A} (c : M A) (handler : exn → M A) : M A :=
  λ h, match c h with
       | (Return a, h') => (Return a, h')
       | (Raise e, h') => handler e h'
       end.

Notation "x <- c ;; k" := (bind c (λ x, k))
  (at level 100, c at next level, right associativity, only parsing).

(** Contents of the dict behind a reference. *)
Definition deref (h : store) (l : loc) : gmap string string := default ∅ (h !! l).
Definition load (l : loc) : M (gmap string string) := λ h, (Return (deref h l), h).
(** A dict display or [{**d, ...}]: a new object. *)
Definition alloc (d : gmap string string) : M loc := λ h, (Return (length h), h ++ [d]).
(** [d[k] = v] on the dict behind [l] (always a live reference: the only
    such assignment in the source is to the dict created just before) *)
Definition setitem (l : loc) (k v : string) : M unit :=
  λ h, (Return tt, <[l := <[k := v]> (deref h l)]> h).

Definition PSID : string := "__Secure-1PSID".
Definition PSIDTS : string := "__Secure-1PSIDTS".

(** ** External collaborators *)

Record Response : Type := { status_code : nat; text : string }.

(** [response.is_success] of httpx: a 2xx status. *)
Definition is_success (r : Response) : bool :=
  bool_decide (200 ≤ status_code r) && bool_decide (status_code r ≤ 299).

(** Everything the function obtains from outside: the cache directory and
    the file system beneath it, the browser cookie loader, the HTTP
    endpoint and the order in which the event loop completes the tasks. *)
Record world : Type := {
  (** [Path(__file__).parent / "temp"] *)
  cache_dir : Path.t;
  (** [p.is_file()]: a missing file gives [False], other errors of the
      underlying [stat] are propagated *)
  is_file : Path.t → result bool;
  (** [p.read_text()] *)
  read_text : Path.t → result string;
  (** names of the entries of [cache_dir], in the order the OS lists them *)
  dir_entries : list string;
  (** [load_browser_cookies(domain_name="google.com", verbose=verbose)] *)
  load_browser_cookies : result (gmap string string);
  (** [client.get(Endpoint.INIT.value)] of the task launched as number [i],
      through the configured proxy, with the given cookies attached *)
  client_get : nat → gmap string string → result Response;
  (** choices of the event loop: at each step the number (modulo the number
      of pending tasks) of the pending task that completes next *)
  schedule : list nat
}.

(** ** [asyncio.as_completed]

    Yields the pending tasks in the order they finish.  Each scheduler
    choice picks one of the tasks still pending; when the choices run out
    the remaining tasks finish in launch order. *)
Fixpoint as_completed {A} (sched : list nat) (pending : list A) : list A :=
  match sched with
  | [] => pending
  | k :: sched' =>
      match pending !! (k mod length pending) with
      | Some t => t :: as_completed sched' (delete (k mod length pending) pending)
      | None => []
      end
  end.

(** ** [get_access_token] *)

(** The failure message, with [len(tasks)] formatted into it. *)
Definition auth_message (n : nat) : string :=
  "Failed to initialize client. SECURE_1PSIDTS could get expired frequently, please make sure cookie values are up to date. (Failed initialization attempts: "
  +:+ Str.of_nat n +:+ ")".

Section get_access_token.
Variable w : world.

(** The inner coroutine [send_request]; [i] is the launch number of the task. *)
Definition send_request (i : nat) (cookies : loc) : M (Response * loc) :=
  sent <- load cookies ;;
  response <- lift (client_get w i sent) ;;
  (* response.raise_for_status() *)
  if is_success response then ret (response, cookies)
  else raise (HTTPStatusError (status_code response)).

(** Lines 61-67: base cookies passed directly. *)
Definition direct_source (base_cookies : loc) : M (list loc) :=
  base <- load base_cookies ;;
  if bool_decide (is_Some (base !! PSID)) && bool_decide (is_Some (base !! PSIDTS))
  then ret [base_cookies]
  else ret [].

(** Lines 84-94: the loop over the globbed cache files. *)
Fixpoint scan_cache (cache_files : list Path.t) : M (list loc) :=
  match cache_files with
  | [] => ret []
  | cache_file :: rest =>
      cached_1psidts <- lift (read_text w cache_file) ;;
      here <- (if Str.truthy cached_1psidts then
                cached_cookies <- alloc (<[PSIDTS := cached_1psidts]>
                                         {[PSID := Str.drop 16 (Path.stem cache_file)]}) ;;
                ret [cached_cookies]
              else ret []) ;;
      more <- scan_cache rest ;;
      ret (here ++ more)
  end.

(** [cache_dir.glob(".cached_1psidts_*.txt")] *)
Definition glob_cache : list Path.t :=
  (λ entry, cache_dir w ++ [entry]) <$> filter (λ e, Is_true (Path.glob_match e)) (dir_entries w).

(** The file name of the cache entry of one identity key. *)
Definition cache_filename (secure_1psid : string) : string :=
  ".cached_1psidts_" +:+ secure_1psid +:+ ".txt".

(** Lines 69-99: cached cookies in a local file. *)
Definition cache_source (base_cookies : loc) : M (list loc) :=
  base <- load base_cookies ;;
  match base !! PSID with
  | Some secure_1psid =>
      let filename := cache_filename secure_1psid in
      let cache_file := Path.joinpath (cache_dir w) filename in
      exists_as_file <- lift (is_file w cache_file) ;;
      if exists_as_file : bool then
        cached_1psidts <- lift (read_text w cache_file) ;;
        if Str.truthy cached_1psidts then
          cached_cookies <- alloc (<[PSIDTS := cached_1psidts]> base) ;;
          ret [cached_cookies]
        else ret []
      else ret []
  | None => scan_cache glob_cache
  end.

(** [browser_cookies.get(k)] used as a condition: present and non-empty. *)
Definition get_truthy (d : gmap string string) (k : string) : option string :=
  match d !! k with
  | Some v => if Str.truthy v then Some v else None
  | None => None
  end.

(** Lines 101-122: browser cookies; both [except] clauses only log. *)
Definition browser_source : M (list loc) :=
  try_except
    (browser_cookies <- lift (load_browser_cookies w) ;;
     match get_truthy browser_cookies PSID with
     | Some secure_1psid =>
         local_cookies <- alloc {[PSID := secure_1psid]} ;;
         _ <- match get_truthy browser_cookies PSIDTS with
             | Some secure_1psidts => setitem local_cookies PSIDTS secure_1psidts
             | None => ret tt
             end ;;
         ret [local_cookies]
     | None => ret []
     end)
    (λ e, match e with
          | ImportError => ret []
          | _ => ret []
          end).

(** Lines 59-122: the list [tasks], as the cookie dict of each task. *)
Definition collect_tasks (base_cookies : loc) : M (list loc) :=
  direct <- direct_source base_cookies ;;
  cached <- cache_source base_cookies ;;
  browser <- browser_source ;;
  ret (direct ++ cached ++ browser).

(** The body of the [try] in the race loop for one completed task:
    [Some] is the [return], [None] falls through to the next completion. *)
Definition attempt (future : nat * loc) : M (option (string * loc)) :=
  try_except
    (completed <- send_request future.1 future.2 ;;
     let '(response, request_cookies) := completed in
     match Re.search (text response) with
     | Some group1 => ret (Some (group1, request_cookies))
     | None => ret None
     end)
    (λ e, ret None).

(** Lines 124-142: the loop over the completions. *)
Fixpoint race (futures : list (nat * loc)) : M (option (string * loc)) :=
  match futures with
  | [] => ret None
  | future :: rest =>
      r <- attempt future ;;
      match r with
      | Some found => ret (Some found)
      | None => race rest
      end
  end.

(** The tasks with their launch numbers. *)
Definition launch (tasks : list loc) : list (nat * loc) := imap (λ i l, (i, l)) tasks.

Definition get_access_token (base_cookies : loc) : M (string * loc) :=
  tasks <- collect_tasks base_cookies ;;
  r <- race (as_completed (schedule w) (launch tasks)) ;;
  match r with
  | Some found => ret found
  | None => raise (AuthError (auth_message (length tasks)))
  end.

End get_access_token.

(** ** Notions of the specification *)

(** A body contains the marker pattern: somewhere it reads quote, SNlM0e,
    quote, colon, quote, a run without newline, quote. *)
Definition contains_marker (body : string) : Prop :=
  ∃ pre tok post,
    body = pre +:+ Re.marker_head +:+ tok +:+ String Re.dquote post
    ∧ Str.contains Re.newline tok = false.

(** The probe of task [i] with the cookies behind [l] yields a
    marker-bearing response: the request returns a response with a success
    status whose body matches the pattern with group [tok]. *)
Definition marker_bearing (w : world) (h : store) (i : nat) (l : loc) (tok : string) : Prop :=
  ∃ response,
    client_get w i (deref h l) = Return response
    ∧ is_success response = true
    ∧ Re.search (text response) = Some tok.

(** A call raises nothing but the typed authentication error. *)
Definition raises_only_AuthError {A} (r : result A) : Prop :=
  ∀ e, r = Raise e → ∃ msg, e = AuthError msg.

(** The accesses to the cache that the call performs for these base
    cookies succeed.  With the identity key: the file test of the keyed
    entry answers and, when it answers yes, the entry reads as text.
    Without it: every entry the glob yields reads as text.  No other path
    is looked at. *)
Definition cache_accesses_succeed (w : world) (h : store) (base_cookies : loc) : Prop :=
  match deref h base_cookies !! PSID with
  | Some k =>
      let cache_file := Path.joinpath (cache_dir w) (cache_filename k) in
      (∃ b, is_file w cache_file = Return b)
      ∧ (is_file w cache_file = Return true → ∃ v, read_text w cache_file = Return v)
  | None => ∀ f, f ∈ glob_cache w → ∃ v, read_text w f = Return v
  end.

(** The same world with another completion order. *)
Definition with_schedule (w : world) (sched : list nat) : world :=
  {| cache_dir := cache_dir w; is_file := is_file w; read_text := read_text w;
     dir_entries := dir_entries w; load_browser_cookies := load_browser_cookies w;
     client_get := client_get w; schedule := sched |}.

(** The same world with another behaviour of the browser cookie loader. *)
Definition with_browser (w : world) (b : result (gmap string string)) : world :=
  {| cache_dir := cache_dir w; is_file := is_file w; read_text := read_text w;
     dir_entries := dir_entries w; load_browser_cookies := b;
     client_get := client_get w; schedule := schedule w |}.

(** The tasks the direct source launches, as a function of the store. *)
Definition direct_tasks (h : store) (base_cookies : loc) : list loc :=
  if bool_decide (is_Some (deref h base_cookies !! PSID))
     && bool_decide (is_Some (deref h base_cookies !! PSIDTS))
  then [base_cookies] else [].

(** The dict the browser source builds from the browser's cookies. *)
Definition browser_dict (browser_cookies : gmap string string) : option (gmap string string) :=
  match get_truthy browser_cookies PSID with
  | Some secure_1psid =>
      Some match get_truthy browser_cookies PSIDTS with
           | Some secure_1psidts => <[PSIDTS := secure_1psidts]> {[PSID := secure_1psid]}
           | None => {[PSID := secure_1psid]}
           end
  | None => None
  end.

(** The dict the scan builds from one cache file, when it reads as a
    non-empty text. *)
Definition scanned_dict (w : world) (cache_file : Path.t) : option (gmap string string) :=
  match read_text w cache_file with
  | Return cached_1psidts =>
      if Str.truthy cached_1psidts
      then Some (<[PSIDTS := cached_1psidts]> {[PSID := Str.drop 16 (Path.stem cache_file)]})
      else None
  | Raise _ => None
  end.

Definition has_key (k : string) (d : gmap string string) : Prop := is_Some (d !! k).

(** ** Concrete worlds

    A cache directory holding regular files only, each given by its name
    and by what reading it yields. *)

Definition temp_dir : Path.t := ["gemini_webapi"; "utils"; "temp"]%string.

Definition flat_world (files : list (string * result string))
    (browser : result (gmap string string))
    (get : nat → gmap string string → result Response)
    (sched : list nat) : world :=
  {| cache_dir := temp_dir;
     is_file := λ p, Return (bool_decide (Exists (λ f, p = temp_dir ++ [f.1]) files));
     read_text := λ p,
       match list_find (λ f, p = temp_dir ++ [f.1]) files with
       | Some (_, f) => f.2
       | None => Raise (OtherError "FileNotFoundError")
       end;
     dir_entries := files.*1;
     load_browser_cookies := browser;
     client_get := get;
     schedule := sched |}.

(** A page that carries the marker with the given token. *)
Definition token_page (tok : string) : string :=
  "<script>{" +:+ Re.marker_head +:+ tok +:+ String Re.dquote "}</script>".

Definition ok_response (body : string) : Response := {| status_code := 200; text := body |}.

Definition sid_cache : list (string * result string) :=
  [(".cached_1psidts_sid.txt"%string, Return "ts_cached"%string)].

(** Base cookies with the identity key only, and with both keys. *)
Definition base_sid : gmap string string := {[PSID := "sid"%string]}.
Definition base_both : gmap string string := <[PSIDTS := "ts"%string]> {[PSID := "sid"%string]}.

(** The endpoint accepts nobody: a 403, then pages without the marker. *)
Definition get_rejecting (i : nat) (sent : gmap string string) : result Response :=
  match i with
  | 0 => Return {| status_code := 403; text := "" |}
  | 1 => Return (ok_response "<html>Sign in</html>")
  | _ => Raise (OtherError "ConnectTimeout")
  end.

(** The endpoint accepts exactly the cookies with the cached timestamp. *)
Definition get_cached_only (i : nat) (sent : gmap string string) : result Response :=
  if bool_decide (sent !! PSIDTS = Some "ts_cached"%string)
  then Return (ok_response (token_page "abc123"))
  else Return (ok_response "<html>Sign in</html>").

(** The endpoint accepts every identity, with a token per identity. *)
Definition get_any (i : nat) (sent : gmap string string) : result Response :=
  if bool_decide (sent !! PSID = Some "sid"%string)
  then Return (ok_response (token_page "abc123"))
  else Return (ok_response (token_page "zzz")).

(** The page shows another marker before the one with [abc123]. *)
Definition get_two_markers (i : nat) (sent : gmap string string) : result Response :=
  Return (ok_response (token_page "first" +:+ token_page "abc123")).

Definition w_rejecting : world :=
  flat_world sid_cache (Raise ImportError) get_rejecting [1; 0].
Definition w_cached_only : world :=
  flat_world sid_cache (Raise ImportError) get_cached_only [1; 0].
Definition w_unreadable : world :=
  flat_world [(".cached_1psidts_sid.txt"%string, Raise (OtherError "PermissionError"))]
    (Raise ImportError) get_cached_only [].
Definition w_browser_first : world :=
  flat_world sid_cache (Return {[PSID := "other"%string]}) get_any [1].
Definition w_two_markers : world :=
  flat_world sid_cache (Raise ImportError) get_two_markers [].
Definition w_scan : world :=
  flat_world sid_cache (Raise ImportError) get_cached_only [].

(** The store after collection from [base_both] with the cached entry. *)
Definition merged_both : gmap string string := <[PSIDTS := "ts_cached"%string]> base_both.
Definition merged_sid : gmap string string := <[PSIDTS := "ts_cached"%string]> base_sid.

(** Further concrete worlds: an empty cache directory, and a directory
    whose second cache entry cannot be read as a file. *)
Definition w_no_cache : world :=
  flat_world [] (Raise ImportError) get_cached_only [].
Definition w_scan_broken : world :=
  flat_world [(".cached_1psidts_a.txt"%string, Return "ts_a"%string);
              (".cached_1psidts_b.txt"%string, Raise (OtherError "IsADirectoryError"));
              (".cached_1psidts_c.txt"%string, Return "ts_c"%string)]
    (Raise ImportError) get_any [].

(** The dicts the browser source adds to the store: at most one. *)
Definition browser_ext (w : world) : list (gmap string string) :=
  match load_browser_cookies w with
  | Return browser_cookies =>
      match browser_dict browser_cookies with
      | Some d => [d]
      | None => []
      end
  | Raise _ => []
  end.

(** A dict holds no other cookie than the two identity cookies. *)
Definition only_identity_keys (d : gmap string string) : Prop :=
  ∀ k, is_Some (d !! k) → k = PSID ∨ k = PSIDTS.

(** The cache entry of [sid] next to an unreadable entry of another key. *)
Definition w_sid_among_others : world :=
  flat_world ((".cached_1psidts_b.txt"%string, Raise (OtherError "IsADirectoryError"))
              :: sid_cache)
    (Raise ImportError) get_cached_only [1; 0].

(** The endpoint answers with a page whose marker holds an empty token. *)
Definition get_empty_token (i : nat) (sent : gmap string string) : result Response :=
  Return (ok_response (token_page EmptyString)).
Definition w_empty_token : world :=
  flat_world sid_cache (Raise ImportError) get_empty_token [].

(** The dict of the browser candidate of [w_browser_first], and the dict
    the scan builds from the cache entry of [sid]. *)
Definition browser_other : gmap string string := {[PSID := "other"%string]}.
Definition scanned_sid : gmap string string :=
  <[PSIDTS := "ts_cached"%string]> {[PSID := "sid"%string]}.

(** ** Strings *)

Section string_facts.
Implicit Types (s t p : string) (c : ascii).

Lemma str_app_cons c s t : String c s +:+ t = String c (s +:+ t).
Proof. reflexivity. Qed.

Lemma str_app_nil_l s : EmptyString +:+ s = s.
Proof. reflexivity. Qed.

Lemma app_assoc_str s t p : (s +:+ t) +:+ p = s +:+ (t +:+ p).
Proof. induction s as [|c s IH]; [done|]. by rewrite !str_app_cons, IH. Qed.

Lemma length_app_str s t : String.length (s +:+ t) = String.length s + String.length t.
Proof. induction s as [|c s IH]; [done|]. rewrite str_app_cons. simpl. by rewrite IH. Qed.

Lemma drop_app_length p s : Str.drop (String.length p) (p +:+ s) = s.
Proof. induction p as [|c p IH]; [done|]. by rewrite str_app_cons. Qed.

Lemma take_app_length p s : Str.take (String.length p) (p +:+ s) = p.
Proof. induction p as [|c p IH]; [done|]. rewrite str_app_cons. simpl. by rewrite IH. Qed.

Lemma startswith_app p s : Str.startswith p (p +:+ s) = true.
Proof.
  induction p as [|c p IH]; [done|]. rewrite str_app_cons. simpl.
  by rewrite bool_decide_eq_true_2, IH.
Qed.

Lemma startswith_inv p s :
  Str.startswith p s = true → s = p +:+ Str.drop (String.length p) s.
Proof.
  revert s. induction p as [|c p IH]; intros [|a s]; simpl; try done.
  intros [Hc Hp]%andb_prop. apply bool_decide_eq_true_1 in Hc as ->.
  rewrite str_app_cons. f_equal. by apply IH.
Qed.

Lemma contains_app c s t :
  Str.contains c (s +:+ t) = Str.contains c s || Str.contains c t.
Proof.
  induction s as [|a s IH]; [done|]. rewrite str_app_cons. simpl.
  rewrite IH. by destruct (bool_decide (a = c)).
Qed.

Lemma rfind_absent c s : Str.contains c s = false → Str.rfind c s = None.
Proof.
  induction s as [|a s IH]; [done|]. simpl.
  intros [Ha Hs]%orb_false_elim. by rewrite (IH Hs), Ha.
Qed.

Lemma rfind_app_last c s t :
  Str.contains c t = false → Str.rfind c (s +:+ String c t) = Some (String.length s).
Proof.
  intros Ht. induction s as [|a s IH].
  - rewrite str_app_nil_l. simpl. by rewrite (rfind_absent _ _ Ht), bool_decide_eq_true_2.
  - rewrite str_app_cons. simpl. by rewrite IH.
Qed.

Lemma split_absent c s : Str.contains c s = false → Str.split c s = [s].
Proof.
  induction s as [|a s IH]; [done|]. simpl.
  intros [Ha Hs]%orb_false_elim. by rewrite Ha, (IH Hs).
Qed.

End string_facts.

(** ** Cache file names *)

Section cache_names.
Implicit Types (k s p : string) (dir : Path.t).

Lemma cache_filename_unfold k :
  cache_filename k = (".cached_1psidts_" +:+ k) +:+ String "." "txt".
Proof. unfold cache_filename. by rewrite app_assoc_str. Qed.

Lemma cache_filename_parts k :
  Str.contains "/" k = false → Path.parse_parts (cache_filename k) = [cache_filename k].
Proof.
  intros Hk. unfold Path.parse_parts.
  rewrite split_absent.
  - rewrite filter_cons_True; [done|]. split; by unfold cache_filename.
  - unfold cache_filename. rewrite !contains_app, Hk. done.
Qed.

Lemma joinpath_cache_filename dir k :
  Str.contains "/" k = false →
  Path.joinpath dir (cache_filename k) = dir ++ [cache_filename k].
Proof. intros Hk. unfold Path.joinpath. by rewrite cache_filename_parts. Qed.

Lemma name_snoc dir (entry : string) : Path.name (dir ++ [entry]) = entry.
Proof. unfold Path.name. apply last_last. Qed.

Lemma stem_cache_filename dir k :
  Path.stem (dir ++ [cache_filename k]) = ".cached_1psidts_" +:+ k.
Proof.
  unfold Path.stem. rewrite name_snoc, cache_filename_unfold.
  rewrite rfind_app_last by done.
  rewrite bool_decide_eq_true_2 by (rewrite length_app_str; simpl; lia).
  rewrite bool_decide_eq_true_2 by (rewrite !length_app_str; simpl; lia).
  cbv [andb]. apply take_app_length.
Qed.

Lemma drop_cached_prefix s : Str.drop 16 (".cached_1psidts_" +:+ s) = s.
Proof. exact (drop_app_length ".cached_1psidts_" s). Qed.

Lemma endswith_app p s : Str.endswith p (s +:+ p) = true.
Proof.
  unfold Str.endswith. rewrite length_app_str.
  rewrite bool_decide_eq_true_2 by lia.
  replace (String.length s + String.length p - String.length p)
    with (String.length s) by lia.
  rewrite drop_app_length. by rewrite bool_decide_eq_true_2.
Qed.

Lemma glob_match_cache_filename k : Path.glob_match (cache_filename k) = true.
Proof.
  unfold Path.glob_match, cache_filename.
  by rewrite startswith_app, drop_cached_prefix, endswith_app.
Qed.

End cache_names.

(** ** The regular expression *)

Section regex.
Implicit Types (s g pre post tok : string).

Lemma lazy_group_sound s g :
  Re.lazy_group s = Some g →
  ∃ post, s = g +:+ String Re.dquote post
          ∧ Str.contains Re.dquote g = false ∧ Str.contains Re.newline g = false.
Proof.
  revert g. induction s as [|c s IH]; intros g; simpl; [done|].
  case_bool_decide as Hq; [intros [= <-]; subst c; by exists s|].
  case_bool_decide as Hn; [done|].
  destruct (Re.lazy_group s) as [g'|] eqn:Hg; [|done].
  intros [= <-]. destruct (IH g' eq_refl) as (post & -> & Hq' & Hn').
  exists post. rewrite str_app_cons. simpl.
  by rewrite Hq', Hn', !bool_decide_eq_false_2.
Qed.

Lemma lazy_group_first s post :
  Str.contains Re.dquote s = false → Str.contains Re.newline s = false →
  Re.lazy_group (s +:+ String Re.dquote post) = Some s.
Proof.
  induction s as [|c s IH]; [done|]. rewrite str_app_cons. simpl.
  intros [Hq Hs]%orb_false_elim [Hn Hs']%orb_false_elim.
  apply bool_decide_eq_false_1 in Hq, Hn.
  by rewrite !bool_decide_eq_false_2, IH.
Qed.

Lemma lazy_group_total tok post :
  Str.contains Re.newline tok = false →
  is_Some (Re.lazy_group (tok +:+ String Re.dquote post)).
Proof.
  induction tok as [|c tok IH]; [by eexists|]. rewrite str_app_cons. simpl.
  intros [Hn Hs]%orb_false_elim. apply bool_decide_eq_false_1 in Hn.
  case_bool_decide; [by eexists|]. rewrite bool_decide_eq_false_2 by done.
  destruct (IH Hs) as [g ->]. by eexists.
Qed.

Lemma match_here_sound s g :
  Re.match_here s = Some g →
  ∃ post, s = Re.marker_head +:+ g +:+ String Re.dquote post
          ∧ Str.contains Re.dquote g = false ∧ Str.contains Re.newline g = false.
Proof.
  unfold Re.match_here. destruct (Str.startswith _ s) eqn:Hh; [|done].
  intros (post & Hs & ?)%lazy_group_sound. exists post. split; [|done].
  rewrite <- Hs. by apply startswith_inv.
Qed.

Lemma match_here_head s :
  Re.match_here (Re.marker_head +:+ s) = Re.lazy_group s.
Proof. unfold Re.match_here. by rewrite startswith_app, drop_app_length. Qed.

Lemma search_unfold s :
  Re.search s =
    match Re.match_here s, s with
    | Some g, _ => Some g
    | None, String _ r => Re.search r
    | None, EmptyString => None
    end.
Proof. by destruct s. Qed.

Lemma search_sound s g :
  Re.search s = Some g →
  ∃ pre post, s = pre +:+ Re.marker_head +:+ g +:+ String Re.dquote post
              ∧ Str.contains Re.dquote g = false ∧ Str.contains Re.newline g = false.
Proof.
  induction s as [|c s IH]; rewrite search_unfold.
  - destruct (Re.match_here EmptyString) eqn:Hm; [|done].
    intros [= ->]. apply match_here_sound in Hm as (post & ? & ?).
    by exists EmptyString, post.
  - destruct (Re.match_here (String c s)) eqn:Hm.
    + intros [= ->]. apply match_here_sound in Hm as (post & ? & ?).
      by exists EmptyString, post.
    + intros (pre & post & -> & ?)%IH. by exists (String c pre), post.
Qed.

Lemma search_complete pre tok post :
  Str.contains Re.newline tok = false →
  is_Some (Re.search (pre +:+ Re.marker_head +:+ tok +:+ String Re.dquote post)).
Proof.
  intros Hn. induction pre as [|c pre IH].
  - rewrite str_app_nil_l, search_unfold, match_here_head.
    destruct (lazy_group_total tok post Hn) as [g ->]. by eexists.
  - rewrite str_app_cons, search_unfold.
    destruct (Re.match_here _); [by eexists|done].
Qed.

(** The search succeeds exactly on the bodies that contain the pattern. *)
Lemma search_spec s : is_Some (Re.search s) ↔ contains_marker s.
Proof.
  split.
  - intros [g (pre & post & -> & _ & Hn)%search_sound]. by exists pre, g, post.
  - intros (pre & tok & post & -> & Hn). by apply search_complete.
Qed.

(** The group is taken from the leftmost occurrence of the head. *)
Lemma search_first pre g post :
  (∀ n, n < String.length pre →
        Str.startswith Re.marker_head
          (Str.drop n (pre +:+ Re.marker_head +:+ g +:+ String Re.dquote post)) = false) →
  Str.contains Re.dquote g = false → Str.contains Re.newline g = false →
  Re.search (pre +:+ Re.marker_head +:+ g +:+ String Re.dquote post) = Some g.
Proof.
  intros Hpre Hq Hn. induction pre as [|c pre IH].
  - by rewrite str_app_nil_l, search_unfold, match_here_head, lazy_group_first.
  - rewrite str_app_cons, search_unfold.
    assert (H0 := Hpre 0 ltac:(simpl; lia)). cbn [Str.drop] in H0.
    unfold Re.match_here. rewrite <- str_app_cons, H0.
    apply IH. intros n Hlt. apply (Hpre (S n)). simpl. lia.
Qed.

End regex.

(** ** The store *)

Section store_facts.
Implicit Types (h ext : store) (d : gmap string string) (l : loc).

Lemma deref_app_l h ext l : l < length h → deref (h ++ ext) l = deref h l.
Proof. intros Hl. unfold deref. by rewrite lookup_app_l. Qed.

Lemma deref_app_r h ext (n : nat) : deref (h ++ ext) (length h + n) = default ∅ (ext !! n).
Proof. unfold deref. by rewrite lookup_app_r, Nat.add_comm, Nat.add_sub by lia. Qed.

Lemma deref_new h d : deref (h ++ [d]) (length h) = d.
Proof. unfold deref. by rewrite list_lookup_middle. Qed.

Lemma deref_Some h l (k v : string) : deref h l !! k = Some v → l < length h.
Proof.
  unfold deref. destruct (h !! l) eqn:Hl; simpl.
  - intros _. by eapply lookup_lt_Some.
  - by rewrite lookup_empty.
Qed.

Lemma setitem_new h d k v :
  setitem (length h) k v (h ++ [d]) = (Return tt, h ++ [<[k := v]> d]).
Proof.
  unfold setitem. rewrite deref_new. f_equal.
  rewrite insert_app_r_alt, Nat.sub_diag by lia. done.
Qed.

End store_facts.

(** ** The candidate sources *)

Section sources.
Variable w : world.
Implicit Types (h ext : store) (l base_cookies : loc) (tasks : list loc).

Lemma direct_source_eq base_cookies h :
  direct_source base_cookies h = (Return (direct_tasks h base_cookies), h).
Proof.
  unfold direct_source, direct_tasks, bind, load.
  by destruct (_ && _).
Qed.

Lemma scan_cache_cons f files h :
  scan_cache w (f :: files) h =
    match read_text w f with
    | Return v =>
        if Str.truthy v then
          match scan_cache w files
                  (h ++ [<[PSIDTS := v]> {[PSID := Str.drop 16 (Path.stem f)]}]) with
          | (Return more, h') => (Return (length h :: more), h')
          | (Raise e, h') => (Raise e, h')
          end
        else scan_cache w files h
    | Raise e => (Raise e, h)
    end.
Proof.
  cbn [scan_cache]. unfold bind, lift, alloc, ret.
  destruct (read_text w f); [|done].
  destruct (Str.truthy _).
  - by destruct (scan_cache w files _) as [[]].
  - by destruct (scan_cache w files _) as [[]].
Qed.

Lemma scanned_dict_mono f files d :
  (∃ f', f' ∈ files ∧ scanned_dict w f' = Some d) →
  ∃ f', f' ∈ f :: files ∧ scanned_dict w f' = Some d.
Proof. intros (f' & ? & ?). exists f'. split; [by right|done]. Qed.

(** The scan allocates one dict per readable non-empty file, in order, and
    launches exactly those; nothing in the store is overwritten. *)
Lemma scan_cache_spec files h r h' :
  scan_cache w files h = (r, h') →
  ∃ ext, h' = h ++ ext
         ∧ Forall (λ d, ∃ f, f ∈ files ∧ scanned_dict w f = Some d) ext
         ∧ ∀ tasks, r = Return tasks →
             tasks = seq (length h) (length ext) ∧ ext = omap (scanned_dict w) files.
Proof.
  revert h r h'. induction files as [|f files IH]; intros h r h'.
  - intros [= <- <-]. exists []. rewrite app_nil_r.
    split; [done|]. split; [constructor|]. by intros ? [= <-].
  - rewrite scan_cache_cons.
    destruct (read_text w f) as [v|e] eqn:Hv.
    2:{ intros [= <- <-]. exists []. rewrite app_nil_r.
        split; [done|]. split; [constructor|done]. }
    destruct (Str.truthy v) eqn:Ht.
    + assert (scanned_dict w f
              = Some (<[PSIDTS := v]> {[PSID := Str.drop 16 (Path.stem f)]})) as Hf
        by (unfold scanned_dict; by rewrite Hv, Ht).
      destruct (scan_cache w files _) as [[more|e] h1] eqn:Hs;
        intros [= <- <-]; apply IH in Hs as (ext & -> & Hall & Hr);
        eexists (_ :: ext); rewrite <- app_assoc; (split; [done|]).
      * split.
        -- constructor.
           ++ exists f. split; [apply list_elem_of_here|done].
           ++ eapply Forall_impl; [exact Hall|]. intros d. apply scanned_dict_mono.
        -- intros ? [= <-]. destruct (Hr more eq_refl) as [-> ->].
           cbn [omap list_omap]. rewrite Hf, length_app. cbn [length seq].
           split; [|done]. f_equal. f_equal. lia.
      * split; [|done]. constructor.
        -- exists f. split; [apply list_elem_of_here|done].
        -- eapply Forall_impl; [exact Hall|]. intros d. apply scanned_dict_mono.
    + assert (scanned_dict w f = None) as Hf
        by (unfold scanned_dict; by rewrite Hv, Ht).
      intros Hs. apply IH in Hs as (ext & -> & Hall & Hr).
      exists ext. split; [done|]. split.
      * eapply Forall_impl; [exact Hall|]. intros d. apply scanned_dict_mono.
      * cbn [omap list_omap]. by rewrite Hf.
Qed.

Lemma scanned_dict_keys f d :
  scanned_dict w f = Some d → has_key PSID d ∧ has_key PSIDTS d.
Proof.
  unfold scanned_dict, has_key. destruct (read_text w f); [|done].
  destruct (Str.truthy _); [|done]. intros [= <-].
  rewrite lookup_insert_ne, lookup_singleton_eq, lookup_insert_eq by done.
  by split.
Qed.

Lemma cache_source_keyed base_cookies h k :
  deref h base_cookies !! PSID = Some k →
  cache_source w base_cookies h =
    let cache_file := Path.joinpath (cache_dir w) (cache_filename k) in
    match is_file w cache_file with
    | Return true =>
        match read_text w cache_file with
        | Return v =>
            if Str.truthy v
            then (Return [length h], h ++ [<[PSIDTS := v]> (deref h base_cookies)])
            else (Return [], h)
        | Raise e => (Raise e, h)
        end
    | Return false => (Return [], h)
    | Raise e => (Raise e, h)
    end.
Proof.
  intros Hk. unfold cache_source, bind at 1, load. rewrite Hk. cbv zeta.
  unfold bind at 1, lift at 1.
  destruct (is_file w _) as [[|]|e]; [|done..].
  unfold bind, lift, alloc, ret. destruct (read_text w _); [|done].
  by destruct (Str.truthy _).
Qed.

Lemma cache_source_scan base_cookies h :
  deref h base_cookies !! PSID = None →
  cache_source w base_cookies h = scan_cache w (glob_cache w) h.
Proof. intros Hk. unfold cache_source, bind at 1, load. by rewrite Hk. Qed.

(** Whatever the cache source does, it only adds new dicts to the store,
    each with both keys, and launches exactly the dicts it added. *)
Lemma cache_source_spec base_cookies h r h' :
  cache_source w base_cookies h = (r, h') →
  ∃ ext, h' = h ++ ext
         ∧ Forall (λ d, has_key PSID d ∧ has_key PSIDTS d) ext
         ∧ ∀ tasks, r = Return tasks → tasks = seq (length h) (length ext).
Proof.
  destruct (deref h base_cookies !! PSID) as [k|] eqn:Hk.
  - rewrite (cache_source_keyed _ _ _ Hk). cbv zeta.
    destruct (is_file w _) as [[|]|e].
    2:{ intros [= <- <-]. exists []. rewrite app_nil_r.
        split; [done|]. split; [constructor|]. by intros ? [= <-]. }
    2:{ intros [= <- <-]. exists []. rewrite app_nil_r.
        split; [done|]. split; [constructor|done]. }
    destruct (read_text w _) as [v|e].
    2:{ intros [= <- <-]. exists []. rewrite app_nil_r.
        split; [done|]. split; [constructor|done]. }
    destruct (Str.truthy v); intros [= <- <-].
    + eexists [_]. split; [done|]. split; [|by intros ? [= <-]].
      constructor; [|constructor]. unfold has_key.
      rewrite lookup_insert_ne, lookup_insert_eq, Hk by done. by split.
    + exists []. rewrite app_nil_r.
      split; [done|]. split; [constructor|]. by intros ? [= <-].
  - rewrite (cache_source_scan _ _ Hk).
    intros (ext & -> & Hall & Hr)%scan_cache_spec.
    exists ext. split; [done|]. split.
    + eapply Forall_impl; [exact Hall|]. intros d (f & _ & Hd).
      by eapply scanned_dict_keys.
    + intros tasks Ht. by destruct (Hr tasks Ht).
Qed.

Lemma browser_source_eq h :
  browser_source w h =
    match load_browser_cookies w with
    | Return browser_cookies =>
        match browser_dict browser_cookies with
        | Some d => (Return [length h], h ++ [d])
        | None => (Return [], h)
        end
    | Raise _ => (Return [], h)
    end.
Proof.
  unfold browser_source, try_except, bind at 1, lift, browser_dict.
  destruct (load_browser_cookies w) as [bc|e]; [|by destruct e].
  destruct (get_truthy bc PSID) as [v|]; [|done].
  unfold bind at 1, alloc. unfold bind at 1.
  destruct (get_truthy bc PSIDTS) as [t|].
  - by rewrite setitem_new.
  - done.
Qed.

Lemma browser_dict_key browser_cookies d :
  browser_dict browser_cookies = Some d → has_key PSID d.
Proof.
  unfold browser_dict, has_key. destruct (get_truthy _ PSID); [|done].
  destruct (get_truthy _ PSIDTS); intros [= <-].
  - by rewrite lookup_insert_ne, lookup_singleton_eq.
  - by rewrite lookup_singleton_eq.
Qed.

Lemma browser_source_spec h r h' :
  browser_source w h = (r, h') →
  ∃ ext, h' = h ++ ext
         ∧ Forall (has_key PSID) ext
         ∧ r = Return (seq (length h) (length ext)).
Proof.
  rewrite browser_source_eq.
  destruct (load_browser_cookies w) as [bc|e].
  2:{ intros [= <- <-]. exists []. by rewrite app_nil_r. }
  destruct (browser_dict bc) as [d|] eqn:Hd; intros [= <- <-].
  - exists [d]. split; [done|]. split; [|done].
    constructor; [|constructor]. by eapply browser_dict_key.
  - exists []. by rewrite app_nil_r.
Qed.

(** The task list: the base dict itself when it carries both keys, then
    the dicts built by the cache source, then the dict built by the
    browser source.  The store only grows. *)
Lemma collect_tasks_spec base_cookies h r h' :
  collect_tasks w base_cookies h = (r, h') →
  ∃ ext_c ext_b,
    h' = h ++ ext_c ++ ext_b
    ∧ Forall (λ d, has_key PSID d ∧ has_key PSIDTS d) ext_c
    ∧ Forall (has_key PSID) ext_b
    ∧ ∀ tasks, r = Return tasks →
        tasks = direct_tasks h base_cookies
                ++ seq (length h) (length ext_c)
                ++ seq (length h + length ext_c) (length ext_b).
Proof.
  unfold collect_tasks, bind at 1. rewrite direct_source_eq.
  unfold bind at 1.
  destruct (cache_source w base_cookies h) as [[cached|e] h1] eqn:Hc;
    apply cache_source_spec in Hc as (ext_c & -> & Hall_c & Hr_c).
  - unfold bind at 1.
    destruct (browser_source w (h ++ ext_c)) as [rb h2] eqn:Hb.
    apply browser_source_spec in Hb as (ext_b & -> & Hall_b & ->).
    intros [= <- <-]. exists ext_c, ext_b. rewrite <- app_assoc.
    split; [done|]. split; [done|]. split; [done|]. intros ? [= <-].
    by rewrite (Hr_c cached eq_refl), length_app.
  - intros [= <- <-]. exists ext_c, []. rewrite app_nil_r.
    split; [done|]. split; [done|]. split; [constructor|done].
Qed.

End sources.

(** ** The race *)

Section race_facts.
Variable w : world.
Implicit Types (h : store) (l : loc) (i : nat) (tok : string)
  (future : nat * loc) (futures : list (nat * loc)).

Lemma send_request_eq i l h :
  send_request w i l h =
    match client_get w i (deref h l) with
    | Return response =>
        if is_success response then (Return (response, l), h)
        else (Raise (HTTPStatusError (status_code response)), h)
    | Raise e => (Raise e, h)
    end.
Proof.
  unfold send_request, bind, load, lift.
  destruct (client_get w i _) as [response|e]; [|done].
  by destruct (is_success response).
Qed.

(** One pass through the loop body never raises and leaves the store as
    it is; it returns exactly when the probe is marker-bearing. *)
Lemma attempt_eq i l h :
  attempt w (i, l) h =
    match client_get w i (deref h l) with
    | Return response =>
        if is_success response then
          match Re.search (text response) with
          | Some group1 => (Return (Some (group1, l)), h)
          | None => (Return None, h)
          end
        else (Return None, h)
    | Raise e => (Return None, h)
    end.
Proof.
  unfold attempt, try_except, bind. cbn [fst snd]. rewrite send_request_eq.
  destruct (client_get w i _) as [response|e]; [|done].
  destruct (is_success response); [|done].
  by destruct (Re.search _).
Qed.

Lemma attempt_win i l h tok :
  marker_bearing w h i l tok → attempt w (i, l) h = (Return (Some (tok, l)), h).
Proof. intros (response & Hg & Hs & Hm). by rewrite attempt_eq, Hg, Hs, Hm. Qed.

Lemma attempt_loss i l h :
  (∀ tok, ¬ marker_bearing w h i l tok) → attempt w (i, l) h = (Return None, h).
Proof.
  intros Hno. rewrite attempt_eq.
  destruct (client_get w i _) as [response|e] eqn:Hg; [|done].
  destruct (is_success response) eqn:Hs; [|done].
  destruct (Re.search _) as [tok|] eqn:Hm; [|done].
  destruct (Hno tok). by exists response.
Qed.

Lemma attempt_inv i l h found :
  attempt w (i, l) h = (Return (Some found), h) →
  ∃ tok, found = (tok, l) ∧ marker_bearing w h i l tok.
Proof.
  rewrite attempt_eq.
  destruct (client_get w i _) as [response|e] eqn:Hg; [|done].
  destruct (is_success response) eqn:Hs; [|done].
  destruct (Re.search _) as [tok|] eqn:Hm; [|done].
  intros [= <-]. exists tok. split; [done|]. by exists response.
Qed.

Lemma attempt_total future h : ∃ o, attempt w future h = (Return o, h).
Proof.
  destruct future as [i l]. rewrite attempt_eq.
  destruct (client_get w i _) as [response|e]; [|by eexists].
  destruct (is_success response); [|by eexists].
  destruct (Re.search _); by eexists.
Qed.

Lemma race_cons future futures h :
  race w (future :: futures) h =
    match attempt w future h with
    | (Return (Some found), h') => (Return (Some found), h')
    | (Return None, h') => race w futures h'
    | (Raise e, h') => (Raise e, h')
    end.
Proof.
  cbn [race]. unfold bind. destruct (attempt w future h) as [[[found|]|e] h']; done.
Qed.

Lemma race_skip future futures h :
  attempt w future h = (Return None, h) → race w (future :: futures) h = race w futures h.
Proof. intros Ha. by rewrite race_cons, Ha. Qed.

Lemma race_all_loss futures h :
  (∀ future, future ∈ futures → attempt w future h = (Return None, h)) →
  race w futures h = (Return None, h).
Proof.
  induction futures as [|future futures IH]; intros Hall; [done|].
  rewrite race_skip by (apply Hall, list_elem_of_here).
  apply IH. intros f Hf. by apply Hall, list_elem_of_further.
Qed.

Lemma race_first_win before future after h found :
  (∀ f, f ∈ before → attempt w f h = (Return None, h)) →
  attempt w future h = (Return (Some found), h) →
  race w (before ++ future :: after) h = (Return (Some found), h).
Proof.
  intros Hall Hwin. induction before as [|f before IH].
  - cbn [app]. by rewrite race_cons, Hwin.
  - rewrite <- app_comm_cons, race_skip by (apply Hall, list_elem_of_here).
    apply IH. intros f' Hf'. by apply Hall, list_elem_of_further.
Qed.

Lemma race_total futures h : ∃ o, race w futures h = (Return o, h).
Proof.
  induction futures as [|future futures IH]; [by eexists|].
  rewrite race_cons. destruct (attempt_total future h) as [[found|] ->]; [by eexists|done].
Qed.

End race_facts.

(** ** Completion order *)

Section completion.
Context {A : Type}.
Implicit Types (sched : list nat) (pending : list A).

(** Whatever the scheduler chooses, every task completes exactly once. *)
Lemma as_completed_perm sched pending : as_completed sched pending ≡ₚ pending.
Proof.
  revert pending. induction sched as [|k sched IH]; intros pending; [done|].
  cbn [as_completed].
  destruct (pending !! (k mod length pending)) as [t|] eqn:Hk.
  - rewrite IH. symmetry. by apply delete_Permutation.
  - destruct pending as [|t pending]; [done|].
    apply lookup_ge_None in Hk.
    pose proof (Nat.mod_upper_bound k (length (t :: pending))) as Hlt.
    cbn [length] in *. lia.
Qed.

Lemma launch_lookup (tasks : list nat) (i : nat) (l : nat) :
  (i, l) ∈ launch tasks ↔ tasks !! i = Some l.
Proof.
  unfold launch. rewrite elem_of_lookup_imap. split.
  - by intros (j & x & [= -> ->] & ?).
  - intros Hl. by exists i, l.
Qed.

Lemma launch_NoDup (tasks : list nat) : NoDup (launch tasks).
Proof.
  apply NoDup_alt. intros i j [n l]. unfold launch.
  rewrite !list_lookup_imap.
  destruct (tasks !! i), (tasks !! j); simpl; congruence.
Qed.

End completion.

(** ** The whole call *)

Section whole_call.
Variable w : world.
Implicit Types (h : store) (l base_cookies : loc) (tasks : list loc).

Lemma get_access_token_eq base_cookies h tasks h1 :
  collect_tasks w base_cookies h = (Return tasks, h1) →
  get_access_token w base_cookies h =
    match race w (as_completed (schedule w) (launch tasks)) h1 with
    | (Return (Some found), h2) => (Return found, h2)
    | (Return None, h2) => (Raise (AuthError (auth_message (length tasks))), h2)
    | (Raise e, h2) => (Raise e, h2)
    end.
Proof.
  intros Hc. unfold get_access_token, bind at 1. rewrite Hc. unfold bind.
  by destruct (race w _ h1) as [[[found|]|e] h2].
Qed.

Lemma get_access_token_collect_raise base_cookies h e h1 :
  collect_tasks w base_cookies h = (Raise e, h1) →
  get_access_token w base_cookies h = (Raise e, h1).
Proof. intros Hc. unfold get_access_token, bind at 1. by rewrite Hc. Qed.

Lemma completed_launched sched tasks (i : nat) l :
  (i, l) ∈ as_completed sched (launch tasks) ↔ tasks !! i = Some l.
Proof. by rewrite as_completed_perm, launch_lookup. Qed.

Lemma all_fail base_cookies h tasks h1 :
  collect_tasks w base_cookies h = (Return tasks, h1) →
  (∀ i l tok, tasks !! i = Some l → ¬ marker_bearing w h1 i l tok) →
  get_access_token w base_cookies h
  = (Raise (AuthError (auth_message (length tasks))), h1).
Proof.
  intros Hc Hno. rewrite (get_access_token_eq _ _ _ _ Hc).
  rewrite race_all_loss; [done|].
  intros [i l] Hin%completed_launched. apply attempt_loss.
  intros tok. by apply Hno.
Qed.

Lemma single_winner base_cookies h tasks h1 (i : nat) l tok :
  collect_tasks w base_cookies h = (Return tasks, h1) →
  tasks !! i = Some l →
  marker_bearing w h1 i l tok →
  (∀ j l' tok', tasks !! j = Some l' → j ≠ i → ¬ marker_bearing w h1 j l' tok') →
  get_access_token w base_cookies h = (Return (tok, l), h1).
Proof.
  intros Hc Hi Hwin Hothers. rewrite (get_access_token_eq _ _ _ _ Hc).
  assert (NoDup (as_completed (schedule w) (launch tasks))) as Hnd
    by (rewrite as_completed_perm; apply launch_NoDup).
  assert (∀ f, f ∈ as_completed (schedule w) (launch tasks) → f ≠ (i, l) →
               attempt w f h1 = (Return None, h1)) as Hloss.
  { intros [j l'] Hin%completed_launched Hne. apply attempt_loss.
    intros tok'. apply Hothers; [done|]. intros ->. congruence. }
  pose proof (proj2 (completed_launched (schedule w) tasks i l) Hi) as Hin.
  apply list_elem_of_split in Hin as (before & after & Heq).
  rewrite Heq in Hnd, Hloss |- *.
  apply NoDup_app in Hnd as (_ & Hbefore & _).
  rewrite (race_first_win w before (i, l) after h1 (tok, l)); [done| |by apply attempt_win].
  intros f Hf. apply Hloss.
  - apply elem_of_app. by left.
  - intros ->. apply (Hbefore _ Hf), list_elem_of_here.
Qed.

End whole_call.

(** ** Runs in which the cache accesses succeed *)

Section readable_cache.
Variable w : world.
Implicit Types (h : store) (base_cookies : loc).

Lemma scan_cache_no_raise files h :
  (∀ f, f ∈ files → ∃ v, read_text w f = Return v) →
  ∃ tasks h', scan_cache w files h = (Return tasks, h').
Proof.
  revert h. induction files as [|f files IH]; intros h Hfiles; [by eexists _, _|].
  assert (∀ f', f' ∈ files → ∃ v, read_text w f' = Return v) as Hrest
    by (intros f' Hf'; by apply Hfiles, list_elem_of_further).
  rewrite scan_cache_cons. destruct (Hfiles f) as [v ->]; [apply list_elem_of_here|].
  destruct (Str.truthy v); [|by apply IH].
  destruct (IH (h ++ [<[PSIDTS := v]> {[PSID := Str.drop 16 (Path.stem f)]}]) Hrest)
    as (more & h' & ->).
  by eexists _, _.
Qed.

Lemma scan_cache_return_reads files h tasks h' :
  scan_cache w files h = (Return tasks, h') →
  ∀ f, f ∈ files → ∃ v, read_text w f = Return v.
Proof.
  revert h tasks h'. induction files as [|f0 files IH]; intros h tasks h' Hs f Hf.
  - by apply elem_of_nil in Hf.
  - rewrite scan_cache_cons in Hs.
    destruct (read_text w f0) as [v|e] eqn:Hv; [|done].
    apply elem_of_cons in Hf as [->|Hf]; [by eexists|].
    destruct (Str.truthy v).
    + destruct (scan_cache w files _) as [[more|?] h1] eqn:Hrest; [|done].
      by eapply IH.
    + by eapply IH.
Qed.

Lemma cache_source_no_raise base_cookies h :
  cache_accesses_succeed w h base_cookies ↔
  ∃ tasks h', cache_source w base_cookies h = (Return tasks, h').
Proof.
  unfold cache_accesses_succeed.
  destruct (deref h base_cookies !! PSID) as [k|] eqn:Hk.
  - rewrite (cache_source_keyed _ _ _ _ Hk). cbv zeta. split.
    + intros [[[|] Hfile] Hread]; rewrite Hfile; [|by eexists _, _].
      destruct (Hread Hfile) as [v ->].
      destruct (Str.truthy v); by eexists _, _.
    + intros (tasks & h' & Hrun).
      destruct (is_file w _) as [[|]|e]; [| |done].
      * split; [by eexists|]. intros _.
        destruct (read_text w _) as [v|e]; [by eexists|done].
      * split; [by eexists|]. done.
  - rewrite (cache_source_scan _ _ _ Hk). split.
    + apply scan_cache_no_raise.
    + intros (tasks & h' & Hrun). by eapply scan_cache_return_reads.
Qed.

Lemma collect_tasks_no_raise base_cookies h :
  cache_accesses_succeed w h base_cookies ↔
  ∃ tasks h', collect_tasks w base_cookies h = (Return tasks, h').
Proof.
  rewrite cache_source_no_raise.
  unfold collect_tasks, bind at 1. rewrite direct_source_eq. unfold bind at 1.
  destruct (cache_source w base_cookies h) as [[cached|e] h1].
  - unfold bind. rewrite browser_source_eq. split; [intros _|by eexists _, _].
    destruct (load_browser_cookies w) as [bc|e]; [|by eexists _, _].
    destruct (browser_dict bc); by eexists _, _.
  - split; by intros (? & ? & ?).
Qed.

End readable_cache.

Lemma collect_tasks_eq w (base_cookies : loc) (h : store) :
  collect_tasks w base_cookies h =
    match cache_source w base_cookies h with
    | (Return cached, h1) =>
        match browser_source w h1 with
        | (Return browser, h2) =>
            (Return (direct_tasks h base_cookies ++ cached ++ browser), h2)
        | (Raise e, h2) => (Raise e, h2)
        end
    | (Raise e, h1) => (Raise e, h1)
    end.
Proof.
  unfold collect_tasks, bind at 1. rewrite direct_source_eq. unfold bind.
  destruct (cache_source w base_cookies h) as [[cached|e] h1]; [|done].
  by destruct (browser_source w h1) as [[browser|e] h2].
Qed.

Lemma truthy_nonempty (v : string) : v ≠ EmptyString → Str.truthy v = true.
Proof. intros Hv. unfold Str.truthy. by rewrite bool_decide_eq_false_2. Qed.

(** * The claims *)

(** C1. When no probe of the candidate list is marker-bearing, the call
    raises [AuthError] and the message carries the number of tasks
    launched; with an empty candidate list the count is 0, with N
    all-failing candidates it is N. *)
Theorem C1_exhaustion_raises_AuthError w base_cookies h tasks h1 :
  collect_tasks w base_cookies h = (Return tasks, h1) →
  (∀ i l tok, tasks !! i = Some l → ¬ marker_bearing w h1 i l tok) →
  get_access_token w base_cookies h
  = (Raise (AuthError (auth_message (length tasks))), h1)
  ∧ (∃ pre post, auth_message (length tasks)
                 = pre +:+ Str.of_nat (length tasks) +:+ post)
  ∧ (tasks = [] →
     get_access_token w base_cookies h = (Raise (AuthError (auth_message 0)), h1)).
Proof.
  intros Hc Hno. pose proof (all_fail w _ _ _ _ Hc Hno) as Hfail.
  split; [done|]. split.
  - by eexists _, _.
  - intros ->. exact Hfail.
Qed.

(** C2. When exactly one candidate has a marker-bearing probe, the call
    returns that candidate's token together with the very dict the task was
    launched with, at whatever position the candidate stands in the task
    list and in whatever order the tasks complete. *)
Theorem C2_single_winner_returned w base_cookies h tasks h1 (i : nat) l tok sched :
  collect_tasks w base_cookies h = (Return tasks, h1) →
  tasks !! i = Some l →
  marker_bearing w h1 i l tok →
  (∀ j l' tok', tasks !! j = Some l' → j ≠ i → ¬ marker_bearing w h1 j l' tok') →
  get_access_token (with_schedule w sched) base_cookies h = (Return (tok, l), h1).
Proof.
  intros Hc Hi Hwin Hothers.
  by apply (single_winner (with_schedule w sched) base_cookies h tasks h1 i l tok).
Qed.

(** C5. The probe of one candidate is a success exactly when the request
    yields a response with a success status whose body contains the marker
    pattern.  A response with another status, and a successful response
    without the marker, are losses for that candidate only: the loop goes
    on with the remaining completions. *)
Theorem C5_probe_success_iff w (i : nat) (l : loc) (h : store) :
  ((∃ tok, attempt w (i, l) h = (Return (Some (tok, l)), h))
   ↔ ∃ response, client_get w i (deref h l) = Return response
                 ∧ is_success response = true
                 ∧ contains_marker (text response))
  ∧ (∀ response rest,
       client_get w i (deref h l) = Return response →
       is_success response = false →
       attempt w (i, l) h = (Return None, h)
       ∧ race w ((i, l) :: rest) h = race w rest h)
  ∧ (∀ response rest,
       client_get w i (deref h l) = Return response →
       ¬ contains_marker (text response) →
       attempt w (i, l) h = (Return None, h)
       ∧ race w ((i, l) :: rest) h = race w rest h).
Proof.
  split; [split|split].
  - intros [tok (tok' & _ & response & Hg & Hs & Hm)%attempt_inv].
    exists response. split; [done|]. split; [done|].
    apply search_spec. by eexists.
  - intros (response & Hg & Hs & [tok Hm]%search_spec).
    exists tok. apply attempt_win. by exists response.
  - intros response rest Hg Hs.
    assert (attempt w (i, l) h = (Return None, h)) as Ha
      by (by rewrite attempt_eq, Hg, Hs).
    split; [done|]. by apply race_skip.
  - intros response rest Hg Hm.
    assert (attempt w (i, l) h = (Return None, h)) as Ha.
    { rewrite attempt_eq, Hg. destruct (is_success response); [|done].
      destruct (Re.search _) eqn:Hsearch; [|done].
      destruct Hm. apply search_spec. by eexists. }
    split; [done|]. by apply race_skip.
Qed.

(** C7. A failure of the browser cookie loader, whatever the exception,
    is swallowed: the browser source returns no candidate and leaves the
    store alone, the task list is the one of the other sources, and the
    call behaves exactly as if the browser had held no cookies. *)
Theorem C7_browser_failure_swallowed w e (base_cookies : loc) (h : store) :
  browser_source (with_browser w (Raise e)) h = (Return [], h)
  ∧ collect_tasks (with_browser w (Raise e)) base_cookies h
    = match cache_source w base_cookies h with
      | (Return cached, h') => (Return (direct_tasks h base_cookies ++ cached), h')
      | (Raise e', h') => (Raise e', h')
      end
  ∧ get_access_token (with_browser w (Raise e)) base_cookies h
    = get_access_token (with_browser w (Return ∅)) base_cookies h.
Proof.
  assert (∀ h', browser_source (with_browser w (Raise e)) h' = (Return [], h')) as Hraise
    by (intros h'; by rewrite browser_source_eq).
  assert (∀ h', browser_source (with_browser w (Return ∅)) h' = (Return [], h')) as Hempty
    by (intros h'; by rewrite browser_source_eq).
  assert (collect_tasks (with_browser w (Raise e)) base_cookies h
          = collect_tasks (with_browser w (Return ∅)) base_cookies h) as Hsame.
  { unfold collect_tasks, bind.
    destruct (direct_source base_cookies h) as [[direct|?] h0]; [|done].
    change (cache_source (with_browser w (Return ∅)) base_cookies h0)
      with (cache_source (with_browser w (Raise e)) base_cookies h0).
    destruct (cache_source _ base_cookies h0) as [[cached|?] h1]; [|done].
    by rewrite Hraise, Hempty. }
  split; [apply Hraise|]. split.
  - unfold collect_tasks, bind at 1. rewrite direct_source_eq. unfold bind.
    change (cache_source (with_browser w (Raise e)) base_cookies h)
      with (cache_source w base_cookies h).
    destruct (cache_source w base_cookies h) as [[cached|?] h1]; [|done].
    rewrite Hraise. unfold ret. by rewrite app_nil_r.
  - unfold get_access_token, bind at 1 3. rewrite Hsame.
    by destruct (collect_tasks _ base_cookies h) as [[tasks|?] h1].
Qed.

(** C9. The call never writes to a dict that existed before it: the final
    store extends the initial one, so the base cookies hold the same pairs
    afterwards, whether the call returns or raises.  Every candidate other
    than the base dict itself is a dict allocated by the call: distinct
    from the base dict, from every earlier object and from every other
    candidate. *)
Theorem C9_base_cookies_not_mutated w (base_cookies : loc) (h : store) base :
  h !! base_cookies = Some base →
  (∀ r h', get_access_token w base_cookies h = (r, h') →
           h `prefix_of` h' ∧ h' !! base_cookies = Some base)
  ∧ (∀ tasks h', collect_tasks w base_cookies h = (Return tasks, h') →
       ∃ built, tasks = direct_tasks h base_cookies ++ built
                ∧ NoDup built
                ∧ ∀ l, l ∈ built →
                       length h ≤ l ∧ l ≠ base_cookies ∧ is_Some (h' !! l)).
Proof.
  intros Hbase. split.
  - intros r h' Hrun.
    assert (∃ r1, collect_tasks w base_cookies h = (r1, h')) as [r1 Hc].
    { destruct (collect_tasks w base_cookies h) as [[tasks|e] h1] eqn:Hc.
      - rewrite (get_access_token_eq _ _ _ _ _ Hc) in Hrun.
        destruct (race_total w (as_completed (schedule w) (launch tasks)) h1) as [o Ho].
        rewrite Ho in Hrun. destruct o; injection Hrun as <- <-; by eexists.
      - rewrite (get_access_token_collect_raise _ _ _ _ _ Hc) in Hrun.
        injection Hrun as <- <-. by eexists. }
    apply collect_tasks_spec in Hc as (ext_c & ext_b & -> & _).
    split; [by eexists|]. by apply lookup_app_l_Some.
  - intros tasks h' Hc.
    apply collect_tasks_spec in Hc as (ext_c & ext_b & -> & _ & _ & Ht).
    rewrite (Ht tasks eq_refl).
    exists (seq (length h) (length ext_c) ++ seq (length h + length ext_c) (length ext_b)).
    rewrite <- seq_app. split; [done|]. split; [apply NoDup_seq|].
    intros l [Hge Hlt]%elem_of_seq. apply lookup_lt_Some in Hbase.
    split; [done|]. split; [lia|].
    apply lookup_lt_is_Some. rewrite !length_app. lia.
Qed.

(** C10. Every dict launched into the race has the key [__Secure-1PSID];
    those launched by the direct source and by the cache source (keyed or
    scanning) also have [__Secure-1PSIDTS], so only the dict launched by
    the browser source may lack it; hence the dict returned on success has
    [__Secure-1PSID]. *)
Theorem C10_candidates_carry_identity w (base_cookies : loc) (h : store) :
  (∀ tasks h', collect_tasks w base_cookies h = (Return tasks, h') →
     ∃ direct cached h1 browser,
       direct_source base_cookies h = (Return direct, h)
       ∧ cache_source w base_cookies h = (Return cached, h1)
       ∧ browser_source w h1 = (Return browser, h')
       ∧ tasks = direct ++ cached ++ browser
       ∧ (∀ l, l ∈ direct ++ cached →
               has_key PSID (deref h' l) ∧ has_key PSIDTS (deref h' l))
       ∧ (∀ l, l ∈ browser → has_key PSID (deref h' l)))
  ∧ (∀ tok l h', get_access_token w base_cookies h = (Return (tok, l), h') →
                 has_key PSID (deref h' l)).
Proof.
  assert (∀ tasks h', collect_tasks w base_cookies h = (Return tasks, h') →
     ∃ direct cached h1 browser,
       direct_source base_cookies h = (Return direct, h)
       ∧ cache_source w base_cookies h = (Return cached, h1)
       ∧ browser_source w h1 = (Return browser, h')
       ∧ tasks = direct ++ cached ++ browser
       ∧ (∀ l, l ∈ direct ++ cached →
               has_key PSID (deref h' l) ∧ has_key PSIDTS (deref h' l))
       ∧ (∀ l, l ∈ browser → has_key PSID (deref h' l))) as Hcollect.
  { intros tasks h' Hc. rewrite collect_tasks_eq in Hc.
    destruct (cache_source w base_cookies h) as [[cached|?] h1] eqn:Hcs; [|done].
    destruct (browser_source w h1) as [[browser|?] h2] eqn:Hbs; [|done].
    injection Hc as <- <-.
    exists (direct_tasks h base_cookies), cached, h1, browser.
    split; [apply direct_source_eq|]. split; [done|]. split; [done|].
    split; [done|].
    apply cache_source_spec in Hcs as (ext_c & -> & Hall_c & Hr_c).
    rewrite (Hr_c cached eq_refl).
    apply browser_source_spec in Hbs as (ext_b & -> & Hall_b & [= ->]).
    split.
    - intros l [Hd|Hl]%elem_of_app.
      + unfold direct_tasks in Hd.
        destruct (bool_decide _) eqn:H1; [|by apply elem_of_nil in Hd].
        destruct (bool_decide (is_Some (_ !! PSIDTS))) eqn:H2;
          [|by apply elem_of_nil in Hd].
        apply list_elem_of_singleton in Hd as ->.
        apply bool_decide_eq_true_1 in H1, H2.
        destruct H1 as [v Hv]. pose proof (deref_Some _ _ _ _ Hv) as Hlt.
        rewrite <- app_assoc, deref_app_l by done. split; [by exists v|done].
      + apply elem_of_seq in Hl as [Hge Hlt].
        replace l with (length h + (l - length h)) by lia.
        rewrite <- app_assoc, deref_app_r.
        destruct (lookup_lt_is_Some_2 (ext_c ++ ext_b) (l - length h)) as [d Hd];
          [rewrite length_app; lia|].
        rewrite Hd. cbn [default].
        rewrite lookup_app_l in Hd by lia.
        rewrite Forall_forall in Hall_c. apply Hall_c.
        by eapply list_elem_of_lookup_2.
    - intros l [Hge Hlt]%elem_of_seq.
      replace l with (length (h ++ ext_c) + (l - length (h ++ ext_c))) by lia.
      rewrite deref_app_r.
      destruct (lookup_lt_is_Some_2 ext_b (l - length (h ++ ext_c))) as [d Hd];
        [lia|].
      rewrite Hd. cbn [default].
      rewrite Forall_forall in Hall_b. apply Hall_b.
      by eapply list_elem_of_lookup_2. }
  split; [exact Hcollect|].
  intros tok l h' Hrun.
  destruct (collect_tasks w base_cookies h) as [[tasks|e] h1] eqn:Hc.
  2:{ by rewrite (get_access_token_collect_raise _ _ _ _ _ Hc) in Hrun. }
  rewrite (get_access_token_eq _ _ _ _ _ Hc) in Hrun.
  destruct (race w _ h1) as [[[found|]|?] h2] eqn:Hrace; [|done..].
  injection Hrun as -> ->.
  destruct (race_total w (as_completed (schedule w) (launch tasks)) h1) as [o Ho].
  rewrite Ho in Hrace. injection Hrace as -> <-.
  assert (l ∈ tasks) as Hl.
  { clear Hc Hcollect.
    assert (∀ fs, race w fs h1 = (Return (Some (tok, l)), h1) →
                  ∃ i, (i, l) ∈ fs) as Hwin.
    { induction fs as [|[i l'] fs IH]; [done|].
      rewrite race_cons.
      destruct (attempt_total w (i, l') h1) as [[found|] Ha]; rewrite Ha.
      - intros [= ->]. apply attempt_inv in Ha as (tok' & [= -> ->] & _).
        exists i. apply list_elem_of_here.
      - intros [j Hj]%IH. exists j. by apply list_elem_of_further. }
    destruct (Hwin _ Ho) as [i Hi%completed_launched].
    by eapply list_elem_of_lookup_2. }
  destruct (Hcollect tasks h1 eq_refl)
    as (direct & cached & h0 & browser & _ & _ & _ & -> & Hdc & Hb).
  rewrite app_assoc in Hl. apply elem_of_app in Hl as [Hl|Hl].
  - by apply Hdc.
  - by apply Hb.
Qed.

(** C3. The code does not keep what the claim says: the reads of the cache
    are not guarded.  With the identity key [sid] in the base cookies and a
    cache entry of [sid] that exists but cannot be read, the call raises
    the error of the read, which is not [AuthError]. *)
Theorem C3_cache_read_failure_escapes :
  (get_access_token w_unreadable 0 [base_sid]).1 = Raise (OtherError "PermissionError")
  ∧ ¬ raises_only_AuthError (get_access_token w_unreadable 0 [base_sid]).1.
Proof.
  assert ((get_access_token w_unreadable 0 [base_sid]).1
          = Raise (OtherError "PermissionError")) as Hrun by (vm_compute; reflexivity).
  split; [done|]. intros Honly. destruct (Honly _ Hrun) as [msg Hmsg]. discriminate.
Qed.

(** C4, as stated, fails: base cookies with both keys and a non-empty
    cache entry give two candidates for the one identity key, the base
    cookies themselves and the cache-enriched copy. *)
Lemma C4_counterexample :
  (collect_tasks w_cached_only 0 [base_both]).1 = Return [0; 1]
  ∧ deref (collect_tasks w_cached_only 0 [base_both]).2 0 !! PSID = Some "sid"%string
  ∧ deref (collect_tasks w_cached_only 0 [base_both]).2 1 !! PSID = Some "sid"%string
  ∧ ¬ ∃ l, (collect_tasks w_cached_only 0 [base_both]).1 = Return [l].
Proof.
  split; [vm_compute; reflexivity|].
  split; [vm_compute; reflexivity|].
  split; [vm_compute; reflexivity|].
  intros [l Hl]. vm_compute in Hl. discriminate.
Qed.

(** C4, amended. With the identity key in the base cookies and a non-empty
    cache entry for it, the cache source launches exactly one candidate,
    a copy of the base cookies with the cached secondary value, and scans
    nothing; the base cookies themselves are launched as a further
    candidate exactly when they also hold the secondary key.  Without the
    identity key in the base cookies there is no direct candidate and the
    cache candidates are those of the scan. *)
Theorem C4_cache_candidates w (base_cookies : loc) (h : store) :
  (∀ base k c,
     h !! base_cookies = Some base →
     base !! PSID = Some k →
     is_file w (Path.joinpath (cache_dir w) (cache_filename k)) = Return true →
     read_text w (Path.joinpath (cache_dir w) (cache_filename k)) = Return c →
     c ≠ EmptyString →
     cache_source w base_cookies h
     = (Return [length h], h ++ [<[PSIDTS := c]> base])
     ∧ direct_source base_cookies h
       = (Return (if bool_decide (has_key PSIDTS base) then [base_cookies] else []), h))
  ∧ (deref h base_cookies !! PSID = None →
     direct_source base_cookies h = (Return [], h)
     ∧ cache_source w base_cookies h = scan_cache w (glob_cache w) h).
Proof.
  split.
  - intros base k c Hbase Hk Hfile Hread Hc.
    assert (deref h base_cookies = base) as Hd by (unfold deref; by rewrite Hbase).
    split.
    + rewrite (cache_source_keyed w _ _ k) by (by rewrite Hd).
      cbv zeta. by rewrite Hfile, Hread, truthy_nonempty, Hd.
    + rewrite direct_source_eq. unfold direct_tasks, has_key. rewrite Hd.
      rewrite (bool_decide_eq_true_2 (is_Some (base !! PSID))) by (by eexists).
      done.
  - intros Hk. split.
    + rewrite direct_source_eq. unfold direct_tasks. rewrite Hk.
      by rewrite (bool_decide_eq_false_2 (is_Some None)) by (by intros [? ?]).
    + by apply cache_source_scan.
Qed.

(** C6, as stated, fails: for a key with a path separator the file name
    built by the keyed branch names a file in a subdirectory, and the stem
    of that path sliced from position 16 is not the key. *)
Lemma C6_counterexample :
  Str.drop 16 (Path.stem (Path.joinpath temp_dir (cache_filename "a/b"))) = EmptyString
  ∧ Str.drop 16 (Path.stem (Path.joinpath temp_dir (cache_filename "a/b"))) ≠ "a/b"%string.
Proof. split; [vm_compute; reflexivity|]. vm_compute. discriminate. Qed.

(** C6, amended. For every identity key without a path separator, the
    stem of the cache file the keyed branch names, sliced from position
    16, is the key; the glob of the scan branch matches that file; and a
    scan that reads a non-empty value from it launches a candidate whose
    [__Secure-1PSID] is the key and whose [__Secure-1PSIDTS] is the value. *)
Theorem C6_cache_name_roundtrip w (k : string) :
  Str.contains "/" k = false →
  Str.drop 16 (Path.stem (Path.joinpath (cache_dir w) (cache_filename k))) = k
  ∧ Path.glob_match (cache_filename k) = true
  ∧ ∀ (base_cookies : loc) (h h' : store) v tasks,
      deref h base_cookies !! PSID = None →
      cache_filename k ∈ dir_entries w →
      read_text w (Path.joinpath (cache_dir w) (cache_filename k)) = Return v →
      v ≠ EmptyString →
      cache_source w base_cookies h = (Return tasks, h') →
      ∃ l, l ∈ tasks ∧ h' !! l = Some (<[PSIDTS := v]> {[PSID := k]}).
Proof.
  intros Hk.
  assert (Str.drop 16 (Path.stem (Path.joinpath (cache_dir w) (cache_filename k))) = k)
    as Hstem
    by (by rewrite joinpath_cache_filename, stem_cache_filename, drop_cached_prefix).
  split; [done|]. split; [apply glob_match_cache_filename|].
  intros base_cookies h h' v tasks Hbase Hentry Hread Hv.
  rewrite (cache_source_scan _ _ _ Hbase).
  intros (ext & -> & _ & Hr)%scan_cache_spec.
  destruct (Hr tasks eq_refl) as [-> Hext].
  assert (<[PSIDTS := v]> {[PSID := k]} ∈ ext) as Hin.
  { rewrite Hext. apply list_elem_of_omap.
    exists (Path.joinpath (cache_dir w) (cache_filename k)). split.
    - rewrite joinpath_cache_filename by done. unfold glob_cache.
      apply list_elem_of_fmap. exists (cache_filename k). split; [done|].
      apply list_elem_of_filter.
      split; [by rewrite glob_match_cache_filename|done].
    - unfold scanned_dict. by rewrite Hread, truthy_nonempty, Hstem. }
  apply list_elem_of_lookup in Hin as [n Hn].
  exists (length h + n). split.
  - apply elem_of_seq. apply lookup_lt_Some in Hn. lia.
  - by rewrite lookup_app_r, Nat.add_comm, Nat.add_sub by lia.
Qed.

(** C8, as stated, fails in two ways.  A browser candidate whose probe is
    marker-bearing and completes first wins the race with its own token;
    and a body that contains the marker with [abc123] after another
    occurrence of the marker yields the group of the first occurrence. *)
Lemma C8_counterexample :
  (is_file w_browser_first (Path.joinpath temp_dir (cache_filename "sid")) = Return true
   ∧ read_text w_browser_first (Path.joinpath temp_dir (cache_filename "sid"))
     = Return "ts_cached"%string
   ∧ client_get w_browser_first 0 (<[PSIDTS := "ts_cached"%string]> base_sid)
     = Return (ok_response (token_page "abc123"))
   ∧ (get_access_token w_browser_first 0 [base_sid]).1 = Return ("zzz"%string, 2))
  ∧ (client_get w_two_markers 0 (<[PSIDTS := "ts_cached"%string]> base_sid)
     = Return (ok_response (token_page "first" +:+ token_page "abc123"))
     ∧ (get_access_token w_two_markers 0 [base_sid]).1 = Return ("first"%string, 1)).
Proof. repeat split; vm_compute; reflexivity. Qed.

(** C8, amended. Base cookies with the identity key only, a non-empty
    cache entry for it, a successful response to the merged cookies whose
    first occurrence of the marker head is the one followed by [abc123]
    and a quote, and a browser candidate (if any) whose probe is not
    marker-bearing: the call returns [abc123] and the merged dict, the
    base cookies plus the cached [__Secure-1PSIDTS]. *)
Theorem C8_cached_scenario w (base_cookies : loc) (h : store) k c response pre post :
  h !! base_cookies = Some {[PSID := k]} →
  is_file w (Path.joinpath (cache_dir w) (cache_filename k)) = Return true →
  read_text w (Path.joinpath (cache_dir w) (cache_filename k)) = Return c →
  c ≠ EmptyString →
  client_get w 0 (<[PSIDTS := c]> {[PSID := k]}) = Return response →
  is_success response = true →
  text response = pre +:+ Re.marker_head +:+ "abc123" +:+ String Re.dquote post →
  (∀ n, n < String.length pre →
        Str.startswith Re.marker_head (Str.drop n (text response)) = false) →
  (∀ browser_cookies d r,
     load_browser_cookies w = Return browser_cookies →
     browser_dict browser_cookies = Some d →
     client_get w 1 d = Return r → is_success r = true →
     Re.search (text r) = None) →
  ∃ h', get_access_token w base_cookies h = (Return ("abc123"%string, length h), h')
        ∧ h' !! length h = Some (<[PSIDTS := c]> {[PSID := k]}).
Proof.
  intros Hbase Hfile Hread Hc Hget Hok Hbody Hfirst Hbrowser.
  assert (deref h base_cookies = {[PSID := k]}) as Hd by (unfold deref; by rewrite Hbase).
  assert (Re.search (text response) = Some "abc123"%string) as Hsearch.
  { rewrite Hbody. apply search_first; [|done..]. by rewrite <- Hbody. }
  assert (direct_tasks h base_cookies = []) as Hdirect.
  { unfold direct_tasks. rewrite Hd.
    rewrite (bool_decide_eq_false_2 (is_Some (_ !! PSIDTS))); [by rewrite andb_false_r|].
    rewrite lookup_singleton_ne by done. by intros [? ?]. }
  pose proof (collect_tasks_eq w base_cookies h) as Hcollect.
  rewrite (cache_source_keyed w _ _ k) in Hcollect
    by (by rewrite Hd, lookup_singleton_eq).
  cbv zeta in Hcollect.
  rewrite Hfile, Hread, truthy_nonempty, Hd, browser_source_eq, Hdirect in Hcollect
    by done.
  set (merged := <[PSIDTS := c]> ({[PSID := k]} : gmap string string)) in *.
  destruct (load_browser_cookies w) as [bc|e] eqn:Hload.
  1: destruct (browser_dict bc) as [d|] eqn:Hdict.
  - exists ((h ++ [merged]) ++ [d]). split.
    + apply (single_winner w _ _ _ _ 0 _ _ Hcollect); [done| |].
      * exists response.
        rewrite deref_app_l, deref_new by (rewrite length_app; cbn [length]; lia).
        done.
      * intros [|[|j]] l' tok' Hl' Hne; [done| |done].
        injection Hl' as <-. intros (r & Hr & Hs & Hm).
        replace (S (length h)) with (length (h ++ [merged])) in Hr
          by (rewrite length_app; cbn [length]; lia).
        rewrite deref_new in Hr.
        rewrite (Hbrowser bc d r) in Hm; done.
    + rewrite lookup_app_l by (rewrite length_app; cbn [length]; lia).
      by apply list_lookup_middle.
  - exists (h ++ [merged]). split.
    + apply (single_winner w _ _ _ _ 0 _ _ Hcollect); [done| |].
      * exists response. by rewrite deref_new.
      * intros [|j] l' tok' Hl' Hne; done.
    + by apply list_lookup_middle.
  - exists (h ++ [merged]). split.
    + apply (single_winner w _ _ _ _ 0 _ _ Hcollect); [done| |].
      * exists response. by rewrite deref_new.
      * intros [|j] l' tok' Hl' Hne; done.
    + by apply list_lookup_middle.
Qed.

(** * The theorems at concrete runs *)

(** Two candidates, a 403 and a page without marker: count 2. *)
Lemma C1_witness :
  get_access_token w_rejecting 0 [base_both]
  = (Raise (AuthError (auth_message 2)), [base_both; merged_both]).
Proof.
  refine (proj1 (C1_exhaustion_raises_AuthError w_rejecting 0 [base_both] [0; 1]
                   [base_both; merged_both] _ _)).
  - vm_compute. reflexivity.
  - intros i l tok Hl (r & Hg & Hs & Hm).
    destruct i as [|[|i]]; [| |discriminate Hl];
      injection Hl as <-; vm_compute in Hg; injection Hg as <-;
      vm_compute in Hs, Hm; discriminate.
Defined.

(** The cached candidate, launched second, is the only one accepted. *)
Lemma C2_witness :
  get_access_token (with_schedule w_cached_only [0; 0]) 0 [base_both]
  = (Return ("abc123"%string, 1), [base_both; merged_both]).
Proof.
  refine (C2_single_winner_returned w_cached_only 0 [base_both] [0; 1]
            [base_both; merged_both] 1 1 "abc123" [0; 0] _ _ _ _).
  - vm_compute. reflexivity.
  - reflexivity.
  - exists (ok_response (token_page "abc123")).
    split; [vm_compute; reflexivity|]. split; vm_compute; reflexivity.
  - intros j l' tok' Hl Hne (r & Hg & Hs & Hm).
    destruct j as [|[|j]]; [|done|discriminate Hl].
    injection Hl as <-. vm_compute in Hg. injection Hg as <-.
    vm_compute in Hm. discriminate.
Defined.

Lemma C4_witness :
  cache_source w_cached_only 0 [base_both] = (Return [1], [base_both; merged_both])
  ∧ direct_source 0 [base_both] = (Return [0], [base_both]).
Proof.
  refine (proj1 (C4_cache_candidates w_cached_only 0 [base_both])
            base_both "sid"%string "ts_cached"%string _ _ _ _ _).
  - reflexivity.
  - vm_compute. reflexivity.
  - vm_compute. reflexivity.
  - vm_compute. reflexivity.
  - discriminate.
Defined.

Lemma C5_witness :
  ∃ tok, attempt w_cached_only (1, 1) [base_both; merged_both]
         = (Return (Some (tok, 1)), [base_both; merged_both]).
Proof.
  refine (proj2 (proj1 (C5_probe_success_iff w_cached_only 1 1 [base_both; merged_both])) _).
  exists (ok_response (token_page "abc123")).
  split; [vm_compute; reflexivity|]. split; [vm_compute; reflexivity|].
  exists "<script>{"%string, "abc123"%string, "}</script>"%string.
  split; vm_compute; reflexivity.
Defined.

Lemma C6_witness :
  Str.drop 16 (Path.stem (Path.joinpath (cache_dir w_scan) (cache_filename "sid")))
  = "sid"%string.
Proof.
  refine (proj1 (C6_cache_name_roundtrip w_scan "sid" _)).
  vm_compute. reflexivity.
Defined.

Lemma C8_witness :
  ∃ h', get_access_token w_cached_only 0 [base_sid]
        = (Return ("abc123"%string, 1), h')
        ∧ h' !! 1 = Some merged_sid.
Proof.
  refine (C8_cached_scenario w_cached_only 0 [base_sid] "sid" "ts_cached"
            (ok_response (token_page "abc123")) "<script>{" "}</script>"
            _ _ _ _ _ _ _ _ _).
  - reflexivity.
  - vm_compute. reflexivity.
  - vm_compute. reflexivity.
  - discriminate.
  - vm_compute. reflexivity.
  - vm_compute. reflexivity.
  - vm_compute. reflexivity.
  - intros n Hn.
    do 9 (destruct n as [|n]; [vm_compute; reflexivity|]).
    cbn [String.length] in Hn. lia.
  - intros bc d r Hload. discriminate Hload.
Defined.

Lemma C9_witness :
  [base_both] `prefix_of` (get_access_token w_cached_only 0 [base_both]).2
  ∧ (get_access_token w_cached_only 0 [base_both]).2 !! 0 = Some base_both.
Proof.
  refine (proj1 (C9_base_cookies_not_mutated w_cached_only 0 [base_both] base_both _)
            (get_access_token w_cached_only 0 [base_both]).1
            (get_access_token w_cached_only 0 [base_both]).2 _).
  - reflexivity.
  - apply surjective_pairing.
Defined.

Lemma C10_witness :
  has_key PSID (deref (get_access_token w_cached_only 0 [base_both]).2 1).
Proof.
  refine (proj2 (C10_candidates_carry_identity w_cached_only 0 [base_both])
            "abc123"%string 1 (get_access_token w_cached_only 0 [base_both]).2 _).
  vm_compute. reflexivity.
Defined.

(** * Further properties of the call *)

(** ** More on strings and cache names *)

Section more_strings.
Implicit Types (s p k : string).

Lemma take_drop_str (n : nat) s : Str.take n s +:+ Str.drop n s = s.
Proof.
  revert s. induction n as [|n IH]; intros [|c s]; try done.
  cbn [Str.take Str.drop]. by rewrite str_app_cons, IH.
Qed.

Lemma endswith_inv p s :
  Str.endswith p s = true →
  s = Str.take (String.length s - String.length p) s +:+ p.
Proof.
  unfold Str.endswith. intros [_ Hd]%andb_prop.
  apply bool_decide_eq_true_1 in Hd.
  pose proof (take_drop_str (String.length s - String.length p) s) as Hs.
  rewrite Hd in Hs. by symmetry.
Qed.

Lemma glob_match_inv s : Path.glob_match s = true → ∃ k, s = cache_filename k.
Proof.
  unfold Path.glob_match. intros [Hpre Hsuf]%andb_prop.
  apply startswith_inv in Hpre. apply endswith_inv in Hsuf.
  eexists. unfold cache_filename. rewrite <- Hsuf. exact Hpre.
Qed.

End more_strings.

(** ** More on the race *)

Section more_race.
Variable w : world.
Implicit Types (h : store) (l : loc) (i : nat) (tok : string)
  (futures : list (nat * loc)).

Lemma race_inv_some futures h tok l h' :
  race w futures h = (Return (Some (tok, l)), h') →
  h' = h
  ∧ ∃ before i after,
      futures = before ++ (i, l) :: after
      ∧ (∀ f, f ∈ before → attempt w f h = (Return None, h))
      ∧ marker_bearing w h i l tok.
Proof.
  induction futures as [|[i l'] futures IH]; [done|].
  rewrite race_cons.
  destruct (attempt_total w (i, l') h) as [[found|] Ha]; rewrite Ha.
  - intros [= -> <-]. apply attempt_inv in Ha as (tok' & [= -> ->] & Hm).
    split; [done|]. exists [], i, futures. split; [done|]. split; [|done].
    intros f Hf. by apply elem_of_nil in Hf.
  - intros (-> & before & j & after & -> & Hbefore & Hm)%IH.
    split; [done|]. exists ((i, l') :: before), j, after.
    split; [done|]. split; [|done].
    intros f [->|Hf]%elem_of_cons; [done|by apply Hbefore].
Qed.

Lemma race_inv_none futures h h' :
  race w futures h = (Return None, h') →
  ∀ i l tok, (i, l) ∈ futures → ¬ marker_bearing w h i l tok.
Proof.
  induction futures as [|[j l'] futures IH]; intros Hrace i l tok Hin.
  - by apply elem_of_nil in Hin.
  - rewrite race_cons in Hrace.
    destruct (attempt_total w (j, l') h) as [[found|] Ha]; rewrite Ha in Hrace;
      [done|].
    apply elem_of_cons in Hin as [[= -> ->]|Hin].
    + intros Hm. apply attempt_win in Hm. congruence.
    + by apply (IH Hrace).
Qed.

End more_race.

(** ** What the race returns *)

Lemma returned_inv w (base_cookies : loc) (h h' : store) tok (l : loc) :
  get_access_token w base_cookies h = (Return (tok, l), h') →
  ∃ tasks (i : nat),
    collect_tasks w base_cookies h = (Return tasks, h')
    ∧ tasks !! i = Some l
    ∧ marker_bearing w h' i l tok.
Proof.
  intros Hrun.
  destruct (collect_tasks w base_cookies h) as [[tasks|e] h1] eqn:Hc.
  2:{ by rewrite (get_access_token_collect_raise _ _ _ _ _ Hc) in Hrun. }
  rewrite (get_access_token_eq _ _ _ _ _ Hc) in Hrun.
  destruct (race w _ h1) as [[[[tok' l']|]|?] h2] eqn:Hrace; [|done..].
  injection Hrun as -> -> ->.
  apply race_inv_some in Hrace as (-> & before & i & after & Heq & _ & Hm).
  exists tasks, i. split; [done|]. split; [|done].
  apply (completed_launched (schedule w)). rewrite Heq.
  apply elem_of_app. right. apply list_elem_of_here.
Qed.

Lemma raised_inv w (base_cookies : loc) (h h' : store) e :
  get_access_token w base_cookies h = (Raise e, h') →
  collect_tasks w base_cookies h = (Raise e, h')
  ∨ ∃ tasks, collect_tasks w base_cookies h = (Return tasks, h')
             ∧ e = AuthError (auth_message (length tasks))
             ∧ ∀ i l tok, tasks !! i = Some l → ¬ marker_bearing w h' i l tok.
Proof.
  intros Hrun.
  destruct (collect_tasks w base_cookies h) as [[tasks|e0] h1] eqn:Hc.
  - right. rewrite (get_access_token_eq _ _ _ _ _ Hc) in Hrun.
    destruct (race_total w (as_completed (schedule w) (launch tasks)) h1) as [o Ho].
    rewrite Ho in Hrun. destruct o as [found|]; [done|].
    injection Hrun as <- <-. exists tasks. split; [done|]. split; [done|].
    intros i l tok Hi. eapply race_inv_none; [exact Ho|].
    by apply completed_launched.
  - left. rewrite (get_access_token_collect_raise _ _ _ _ _ Hc) in Hrun.
    by injection Hrun as <- <-.
Qed.

(** X1. A returned token is never invented: the returned dict is the one
    some launched task was started with, the request of that task with
    exactly the contents of that dict gave a response with a success
    status, and the token is the text that stands in that body between the
    marker head and the next quote; it holds neither a quote nor a newline. *)
Theorem X1_returned_token_sound w (base_cookies : loc) (h h' : store) tok (l : loc) :
  get_access_token w base_cookies h = (Return (tok, l), h') →
  ∃ tasks (i : nat) response pre post,
    collect_tasks w base_cookies h = (Return tasks, h')
    ∧ tasks !! i = Some l
    ∧ client_get w i (deref h' l) = Return response
    ∧ is_success response = true
    ∧ text response = pre +:+ Re.marker_head +:+ tok +:+ String Re.dquote post
    ∧ Str.contains Re.dquote tok = false
    ∧ Str.contains Re.newline tok = false.
Proof.
  intros (tasks & i & Hc & Hi & response & Hg & Hs & Hsearch)%returned_inv.
  apply search_sound in Hsearch as (pre & post & Hbody & Hq & Hn).
  by exists tasks, i, response, pre, post.
Qed.

(** X2. Once the candidates are collected, the call fails with the
    authentication error exactly when no candidate has a marker-bearing
    probe, and returns exactly when some candidate has one: no valid
    candidate is ever lost, whatever the completion order. *)
Theorem X2_fails_iff_no_candidate_valid w (base_cookies : loc) (h h1 : store) tasks :
  collect_tasks w base_cookies h = (Return tasks, h1) →
  (get_access_token w base_cookies h
   = (Raise (AuthError (auth_message (length tasks))), h1)
   ↔ ∀ i l tok, tasks !! i = Some l → ¬ marker_bearing w h1 i l tok)
  ∧ ((∃ tok l, get_access_token w base_cookies h = (Return (tok, l), h1))
     ↔ ∃ i l tok, tasks !! i = Some l ∧ marker_bearing w h1 i l tok).
Proof.
  intros Hc. rewrite (get_access_token_eq _ _ _ _ _ Hc).
  destruct (race_total w (as_completed (schedule w) (launch tasks)) h1) as [o Ho].
  rewrite Ho. destruct o as [[tok l]|].
  - apply race_inv_some in Ho as (_ & before & i & after & Heq & _ & Hm).
    assert (tasks !! i = Some l) as Hi.
    { apply (completed_launched (schedule w)). rewrite Heq.
      apply elem_of_app. right. apply list_elem_of_here. }
    split; split.
    + done.
    + intros Hno. destruct (Hno i l tok Hi Hm).
    + intros _. by exists i, l, tok.
    + intros _. by exists tok, l.
  - pose proof (race_inv_none _ _ _ _ Ho) as Hnone.
    split; split.
    + intros _ i l tok Hi. by apply Hnone, completed_launched.
    + done.
    + by intros (tok & l & ?).
    + intros (i & l & tok & Hi & Hm).
      destruct (Hnone i l tok); [by apply completed_launched|done].
Qed.

(** X3. With several valid candidates the winner is the one whose task
    completes first: the call returns the token and dict of the earliest
    marker-bearing completion and ignores every later one, valid or not. *)
Theorem X3_earliest_completion_wins w (base_cookies : loc) (h h1 : store) tasks
    before (i : nat) (l : loc) after tok :
  collect_tasks w base_cookies h = (Return tasks, h1) →
  as_completed (schedule w) (launch tasks) = before ++ (i, l) :: after →
  (∀ j l' tok', (j, l') ∈ before → ¬ marker_bearing w h1 j l' tok') →
  marker_bearing w h1 i l tok →
  get_access_token w base_cookies h = (Return (tok, l), h1).
Proof.
  intros Hc Horder Hbefore Hm. rewrite (get_access_token_eq _ _ _ _ _ Hc), Horder.
  rewrite (race_first_win w before (i, l) after h1 (tok, l)); [done| |by apply attempt_win].
  intros [j l'] Hj. apply attempt_loss. intros tok'. by apply Hbefore.
Qed.

(** X4. Whether the call returns or raises does not depend on the order in
    which the tasks complete, and when it raises, it raises the same
    exception under every order; only the choice among several valid
    candidates depends on the order. *)
Theorem X4_outcome_kind_independent_of_order w (base_cookies : loc) (h : store) s1 s2 :
  ((∃ found h', get_access_token (with_schedule w s1) base_cookies h = (Return found, h'))
   ↔ ∃ found h', get_access_token (with_schedule w s2) base_cookies h = (Return found, h'))
  ∧ ∀ e h', get_access_token (with_schedule w s1) base_cookies h = (Raise e, h')
            ↔ get_access_token (with_schedule w s2) base_cookies h = (Raise e, h').
Proof.
  assert (∀ sa sb found h',
            get_access_token (with_schedule w sa) base_cookies h = (Return found, h') →
            ∃ found' h'', get_access_token (with_schedule w sb) base_cookies h
                          = (Return found', h'')) as Hret.
  { intros sa sb [tok l] h' (tasks & i & Hc & Hi & Hm)%returned_inv.
    change (collect_tasks (with_schedule w sa) base_cookies h)
      with (collect_tasks (with_schedule w sb) base_cookies h) in Hc.
    change (marker_bearing (with_schedule w sa) h' i l tok)
      with (marker_bearing (with_schedule w sb) h' i l tok) in Hm.
    rewrite (get_access_token_eq _ _ _ _ _ Hc).
    destruct (race_total (with_schedule w sb)
                (as_completed (schedule (with_schedule w sb)) (launch tasks)) h')
      as [[found'|] Ho]; rewrite Ho; [by eexists _, _|].
    destruct (race_inv_none _ _ _ _ Ho i l tok); [by apply completed_launched|done]. }
  assert (∀ sa sb e h',
            get_access_token (with_schedule w sa) base_cookies h = (Raise e, h') →
            get_access_token (with_schedule w sb) base_cookies h = (Raise e, h')) as Hraise.
  { intros sa sb e h' [Hc|(tasks & Hc & -> & Hno)]%raised_inv.
    - by apply get_access_token_collect_raise.
    - by apply (all_fail (with_schedule w sb)). }
  split; [split|split].
  - intros (found & h' & Hrun). by eapply Hret.
  - intros (found & h' & Hrun). by eapply Hret.
  - apply Hraise.
  - apply Hraise.
Qed.

(** X5. The race loop writes nothing: the store after the call is the
    store left by the collection of candidates, whether the call returns or
    raises and whatever the responses are. *)
Theorem X5_race_leaves_store w (base_cookies : loc) (h : store) :
  (get_access_token w base_cookies h).2 = (collect_tasks w base_cookies h).2.
Proof.
  destruct (collect_tasks w base_cookies h) as [[tasks|e] h1] eqn:Hc.
  - rewrite (get_access_token_eq _ _ _ _ _ Hc).
    destruct (race_total w (as_completed (schedule w) (launch tasks)) h1) as [o ->].
    by destruct o.
  - by rewrite (get_access_token_collect_raise _ _ _ _ _ Hc).
Qed.

(** ** What is collected *)

Section more_sources.
Variable w : world.
Implicit Types (h ext : store) (l base_cookies : loc) (tasks : list loc).

Lemma length_omap_le {A B} (f : A → option B) (xs : list A) :
  length (omap f xs) ≤ length xs.
Proof.
  induction xs as [|x xs IH]; [done|]. cbn [omap list_omap].
  destruct (f x); cbn [length]; lia.
Qed.

Lemma browser_source_ext h :
  browser_source w h
  = (Return (seq (length h) (length (browser_ext w))), h ++ browser_ext w).
Proof.
  rewrite browser_source_eq. unfold browser_ext.
  destruct (load_browser_cookies w) as [bc|e].
  - destruct (browser_dict bc); [done|]. by rewrite app_nil_r.
  - by rewrite app_nil_r.
Qed.

Lemma browser_ext_length : length (browser_ext w) ≤ 1.
Proof.
  unfold browser_ext.
  destruct (load_browser_cookies w) as [bc|e]; [destruct (browser_dict bc)|];
    cbn [length]; lia.
Qed.

Lemma deref_built (P : gmap string string → Prop) h ext l :
  Forall P ext → l ∈ seq (length h) (length ext) → P (deref (h ++ ext) l).
Proof.
  intros Hall [Hge Hlt]%elem_of_seq.
  replace l with (length h + (l - length h)) by lia. rewrite deref_app_r.
  destruct (lookup_lt_is_Some_2 ext (l - length h)) as [d Hd]; [lia|].
  rewrite Hd. cbn [default]. rewrite Forall_forall in Hall.
  by eapply Hall, list_elem_of_lookup_2.
Qed.

(** Without the identity key in the base cookies: the whole collection. *)
Lemma collect_scan_eq base_cookies h tasks h' :
  deref h base_cookies !! PSID = None →
  collect_tasks w base_cookies h = (Return tasks, h') →
  h' = h ++ omap (scanned_dict w) (glob_cache w) ++ browser_ext w
  ∧ tasks = seq (length h)
              (length (omap (scanned_dict w) (glob_cache w) ++ browser_ext w)).
Proof.
  intros Hk. rewrite collect_tasks_eq, (cache_source_scan _ _ _ Hk).
  destruct (scan_cache w (glob_cache w) h) as [[cached|e] h1] eqn:Hs; [|done].
  apply scan_cache_spec in Hs as (ext & -> & _ & Hr).
  destruct (Hr cached eq_refl) as [-> ->].
  rewrite browser_source_ext. intros [= <- <-].
  rewrite <- app_assoc. split; [done|].
  unfold direct_tasks. rewrite Hk.
  rewrite (bool_decide_eq_false_2 (is_Some None)) by (by intros [? ?]).
  cbn [andb app]. by rewrite (length_app (omap _ _)), seq_app, (length_app h).
Qed.

Lemma scanned_dict_only_identity f d :
  scanned_dict w f = Some d → only_identity_keys d.
Proof.
  unfold scanned_dict. destruct (read_text w f); [|done].
  destruct (Str.truthy _); [|done]. intros [= <-] k.
  rewrite lookup_insert_is_Some. intros [<-|[_ [v Hv]]]; [by right|].
  apply lookup_singleton_Some in Hv as [<- _]. by left.
Qed.

Lemma browser_dict_only_identity browser_cookies d :
  browser_dict browser_cookies = Some d → only_identity_keys d.
Proof.
  unfold browser_dict. destruct (get_truthy _ PSID) as [sid|]; [|done].
  destruct (get_truthy _ PSIDTS) as [ts|]; intros [= <-] k.
  - rewrite lookup_insert_is_Some. intros [<-|[_ [v Hv]]]; [by right|].
    apply lookup_singleton_Some in Hv as [<- _]. by left.
  - intros [v Hv]. apply lookup_singleton_Some in Hv as [<- _]. by left.
Qed.

Lemma browser_ext_only_identity : Forall only_identity_keys (browser_ext w).
Proof.
  unfold browser_ext. destruct (load_browser_cookies w) as [bc|e]; [|constructor].
  destruct (browser_dict bc) as [d|] eqn:Hd; [|constructor].
  constructor; [|constructor]. by eapply browser_dict_only_identity.
Qed.

End more_sources.

(** X6. The number of probes is bounded before any request is sent: with
    the identity key in the base cookies at most three tasks are launched
    (base cookies, one cache entry, browser), without it at most one per
    cache file the glob yields plus one for the browser. *)
Theorem X6_task_count_bound w (base_cookies : loc) (h h' : store) tasks :
  collect_tasks w base_cookies h = (Return tasks, h') →
  length tasks ≤ match deref h base_cookies !! PSID with
                 | Some _ => 3
                 | None => length (glob_cache w) + 1
                 end.
Proof.
  destruct (deref h base_cookies !! PSID) as [k|] eqn:Hk.
  - rewrite collect_tasks_eq, (cache_source_keyed _ _ _ _ Hk). cbv zeta.
    assert (length (direct_tasks h base_cookies) ≤ 1) as Hd
      by (unfold direct_tasks; destruct (_ && _); cbn [length]; lia).
    pose proof (browser_ext_length w) as Hb.
    destruct (is_file w _) as [[|]|e]; [|rewrite browser_source_ext|done].
    + destruct (read_text w _) as [v|e]; [|done].
      destruct (Str.truthy v); rewrite browser_source_ext; intros [= <- <-];
        rewrite ?length_app; cbn [length app]; rewrite ?length_seq; lia.
    + intros [= <- <-]. rewrite ?length_app. cbn [length app].
      rewrite ?length_seq. lia.
  - intros [_ ->]%collect_scan_eq; [|done].
    rewrite length_seq, length_app.
    pose proof (length_omap_le (scanned_dict w) (glob_cache w)).
    pose proof (browser_ext_length w). lia.
Qed.

(** X7. The returned dict is either the caller's own base-cookie object
    (only when it holds both identity cookies) or an object the call has
    created itself: the call never returns a reference to any other object
    that existed before. *)
Theorem X7_returned_dict_alias w (base_cookies : loc) (h h' : store) tok (l : loc) :
  get_access_token w base_cookies h = (Return (tok, l), h') →
  (l = base_cookies
   ∧ has_key PSID (deref h base_cookies) ∧ has_key PSIDTS (deref h base_cookies))
  ∨ (length h ≤ l ∧ l < length h').
Proof.
  intros (tasks & i & Hc & Hi & _)%returned_inv.
  apply collect_tasks_spec in Hc as (ext_c & ext_b & -> & _ & _ & Ht).
  rewrite (Ht tasks eq_refl) in Hi. apply list_elem_of_lookup_2 in Hi.
  apply elem_of_app in Hi as [Hd|Hbuilt].
  - left. unfold direct_tasks in Hd.
    destruct (bool_decide (is_Some (_ !! PSID))) eqn:H1;
      [|by apply elem_of_nil in Hd].
    destruct (bool_decide (is_Some (_ !! PSIDTS))) eqn:H2;
      [|by apply elem_of_nil in Hd].
    apply list_elem_of_singleton in Hd as ->.
    by apply bool_decide_eq_true_1 in H1, H2.
  - right. rewrite <- seq_app in Hbuilt. apply elem_of_seq in Hbuilt.
    rewrite !length_app. lia.
Qed.

(** X8. Base cookies without the identity key are never sent.  What is
    launched then does not depend on the base cookies at all: the store
    grows by the dicts built from the cache files and by the browser dict,
    which the world alone determines, and the tasks are exactly these new
    dicts.  Each launched dict is either built from one cache file (its
    [__Secure-1PSID] cut from the file name, its [__Secure-1PSIDTS] the
    non-empty content) or is the dict built from the browser's cookies, and
    holds no other key than the two identity cookies. *)
Theorem X8_base_without_identity_not_sent w (base_cookies : loc) (h h' : store) tasks :
  deref h base_cookies !! PSID = None →
  collect_tasks w base_cookies h = (Return tasks, h') →
  h' = h ++ omap (scanned_dict w) (glob_cache w) ++ browser_ext w
  ∧ tasks = seq (length h)
              (length (omap (scanned_dict w) (glob_cache w) ++ browser_ext w))
  ∧ ∀ l, l ∈ tasks →
      length h ≤ l
      ∧ only_identity_keys (deref h' l)
      ∧ ((∃ f v, f ∈ glob_cache w ∧ read_text w f = Return v ∧ v ≠ EmptyString
                 ∧ deref h' l = <[PSIDTS := v]> {[PSID := Str.drop 16 (Path.stem f)]})
         ∨ (∃ browser_cookies, load_browser_cookies w = Return browser_cookies
                               ∧ browser_dict browser_cookies = Some (deref h' l))).
Proof.
  intros Hk [-> ->]%collect_scan_eq; [|done].
  split; [done|]. split; [done|]. intros l Hl.
  split; [apply elem_of_seq in Hl; lia|]. split.
  - apply (deref_built only_identity_keys); [|done].
    apply Forall_app. split; [|apply browser_ext_only_identity].
    apply Forall_forall. intros d (f & _ & Hd)%list_elem_of_omap.
    by eapply scanned_dict_only_identity.
  - apply (deref_built (λ d,
        (∃ f v, f ∈ glob_cache w ∧ read_text w f = Return v ∧ v ≠ EmptyString
                ∧ d = <[PSIDTS := v]> {[PSID := Str.drop 16 (Path.stem f)]})
        ∨ (∃ browser_cookies, load_browser_cookies w = Return browser_cookies
                              ∧ browser_dict browser_cookies = Some d))); [|done].
    apply Forall_app. split.
    + apply Forall_forall. intros d (f & Hf & Hd)%list_elem_of_omap. left.
      unfold scanned_dict in Hd. destruct (read_text w f) as [v|] eqn:Hv; [|done].
      destruct (Str.truthy v) eqn:Ht; [|done]. injection Hd as <-.
      exists f, v. split; [done|]. split; [done|]. split; [|done].
      intros ->. done.
    + unfold browser_ext. destruct (load_browser_cookies w) as [bc|] eqn:Hload;
        [|constructor].
      destruct (browser_dict bc) as [d|] eqn:Hd; [|constructor].
      constructor; [|constructor]. right. by exists bc.
Qed.

Lemma scan_cache_raise w before f after e (h : store) :
  (∀ f', f' ∈ before → ∃ v, read_text w f' = Return v) →
  read_text w f = Raise e →
  scan_cache w (before ++ f :: after) h = (Raise e, h ++ omap (scanned_dict w) before).
Proof.
  revert h. induction before as [|f0 before IH]; intros h Hbefore Hf.
  - cbn [app omap list_omap]. by rewrite scan_cache_cons, Hf, app_nil_r.
  - assert (∀ f', f' ∈ before → ∃ v, read_text w f' = Return v) as Hrest
      by (intros f' Hf'; by apply Hbefore, list_elem_of_further).
    destruct (Hbefore f0) as [v Hv]; [apply list_elem_of_here|].
    rewrite <- app_comm_cons, scan_cache_cons, Hv. cbn [omap list_omap].
    unfold scanned_dict at 1. rewrite Hv.
    destruct (Str.truthy v).
    + rewrite (IH _ Hrest Hf). by rewrite <- app_assoc.
    + by apply IH.
Qed.

(** X9. With the identity key in the base cookies the cache source looks
    at one file only, the entry of that key: the directory listing and the
    cache files of other identities have no influence on what it does. *)
Theorem X9_keyed_cache_reads_one_file w1 w2 (base_cookies : loc) (h : store) k :
  deref h base_cookies !! PSID = Some k →
  cache_dir w1 = cache_dir w2 →
  is_file w1 (Path.joinpath (cache_dir w1) (cache_filename k))
  = is_file w2 (Path.joinpath (cache_dir w1) (cache_filename k)) →
  read_text w1 (Path.joinpath (cache_dir w1) (cache_filename k))
  = read_text w2 (Path.joinpath (cache_dir w1) (cache_filename k)) →
  cache_source w1 base_cookies h = cache_source w2 base_cookies h.
Proof.
  intros Hk Hdir Hfile Hread.
  rewrite (cache_source_keyed w1 _ _ _ Hk), (cache_source_keyed w2 _ _ _ Hk).
  cbv zeta. by rewrite <- Hdir, Hfile, Hread.
Qed.

(** X10. A failure of the file test or of the read of the keyed cache entry
    ends the call at once with that very exception: the browser is not
    consulted, no dict is created and no probe result can change the
    outcome. *)
Theorem X10_keyed_cache_failure_propagates w (base_cookies : loc) (h : store) k e :
  deref h base_cookies !! PSID = Some k →
  is_file w (Path.joinpath (cache_dir w) (cache_filename k)) = Raise e
  ∨ (is_file w (Path.joinpath (cache_dir w) (cache_filename k)) = Return true
     ∧ read_text w (Path.joinpath (cache_dir w) (cache_filename k)) = Raise e) →
  get_access_token w base_cookies h = (Raise e, h).
Proof.
  intros Hk Hfail. apply get_access_token_collect_raise.
  rewrite collect_tasks_eq, (cache_source_keyed _ _ _ _ Hk). cbv zeta.
  destruct Hfail as [->|[-> ->]]; done.
Qed.

(** X11. A missing or an empty keyed cache entry is skipped silently: the
    cache source launches nothing and creates nothing, and the task list
    consists of the base cookies (when they hold both keys) and of the
    browser candidate (when there is one). *)
Theorem X11_missing_or_empty_cache_skipped w (base_cookies : loc) (h : store) k :
  deref h base_cookies !! PSID = Some k →
  is_file w (Path.joinpath (cache_dir w) (cache_filename k)) = Return false
  ∨ (is_file w (Path.joinpath (cache_dir w) (cache_filename k)) = Return true
     ∧ read_text w (Path.joinpath (cache_dir w) (cache_filename k)) = Return EmptyString) →
  cache_source w base_cookies h = (Return [], h)
  ∧ collect_tasks w base_cookies h
    = (Return (direct_tasks h base_cookies ++ seq (length h) (length (browser_ext w))),
       h ++ browser_ext w).
Proof.
  intros Hk Hskip.
  assert (cache_source w base_cookies h = (Return [], h)) as Hc.
  { rewrite (cache_source_keyed _ _ _ _ Hk). cbv zeta.
    destruct Hskip as [->|[-> ->]]; done. }
  split; [done|]. by rewrite collect_tasks_eq, Hc, browser_source_ext.
Qed.

(** X12. The glob of the scan matches exactly the names the keyed branch
    can produce, and for every matched entry the recovered key names that
    same entry again: no cache file is attributed to a key under which the
    keyed branch would not find it. *)
Theorem X12_glob_matches_exactly_cache_names (entry : string) (dir : Path.t) :
  (Path.glob_match entry = true ↔ ∃ k, entry = cache_filename k)
  ∧ (Path.glob_match entry = true →
     cache_filename (Str.drop 16 (Path.stem (dir ++ [entry]))) = entry).
Proof.
  split; [split|].
  - apply glob_match_inv.
  - intros [k ->]. apply glob_match_cache_filename.
  - intros [k ->]%glob_match_inv.
    by rewrite stem_cache_filename, drop_cached_prefix.
Qed.

(** X13. The browser candidate carries the two identity cookies only:
    without a non-empty [__Secure-1PSID] in the browser's cookies nothing
    is launched; otherwise one new dict is launched that holds that value,
    the browser's [__Secure-1PSIDTS] when it is present and non-empty, and
    no other cookie of the browser. *)
Theorem X13_browser_candidate_shape w (h : store) browser_cookies :
  load_browser_cookies w = Return browser_cookies →
  (browser_cookies !! PSID = None ∨ browser_cookies !! PSID = Some EmptyString →
   browser_source w h = (Return [], h))
  ∧ (∀ sid, browser_cookies !! PSID = Some sid → sid ≠ EmptyString →
       ∃ d, browser_source w h = (Return [length h], h ++ [d])
            ∧ d !! PSID = Some sid
            ∧ d !! PSIDTS = get_truthy browser_cookies PSIDTS
            ∧ ∀ k, k ≠ PSID → k ≠ PSIDTS → d !! k = None).
Proof.
  intros Hload. rewrite browser_source_eq, Hload. unfold browser_dict. split.
  - unfold get_truthy at 1. intros [->| ->]; done.
  - intros sid Hsid Hne. unfold get_truthy at 1.
    rewrite Hsid, truthy_nonempty by done.
    eexists. split; [done|].
    destruct (get_truthy browser_cookies PSIDTS) as [ts|].
    + split; [by rewrite lookup_insert_ne, lookup_singleton_eq|].
      split; [by rewrite lookup_insert_eq|].
      intros k H1 H2. by rewrite lookup_insert_ne, lookup_singleton_ne.
    + split; [by rewrite lookup_singleton_eq|].
      split; [by rewrite lookup_singleton_ne|].
      intros k H1 H2. by rewrite lookup_singleton_ne.
Qed.

(** X14. The token is the group of the leftmost occurrence of the marker
    head: the text up to the next quote, possibly empty, whatever follows
    it, later occurrences of the marker included.  The loop accepts it
    without any further check. *)
Theorem X14_leftmost_marker_is_token w (i : nat) (l : loc) (h : store)
    response pre g post :
  client_get w i (deref h l) = Return response →
  is_success response = true →
  text response = pre +:+ Re.marker_head +:+ g +:+ String Re.dquote post →
  (∀ n, n < String.length pre →
        Str.startswith Re.marker_head (Str.drop n (text response)) = false) →
  Str.contains Re.dquote g = false →
  Str.contains Re.newline g = false →
  attempt w (i, l) h = (Return (Some (g, l)), h).
Proof.
  intros Hg Hs Hbody Hfirst Hq Hn. apply attempt_win.
  exists response. split; [done|]. split; [done|].
  rewrite Hbody. apply search_first; [|done..]. by rewrite <- Hbody.
Qed.

(** X15. Without the identity key in the base cookies the cache source
    launches one new dict per cache file that the glob yields and that
    reads as a non-empty text, in the order of the directory listing, and
    nothing else; files with empty content are passed over. *)
Theorem X15_scan_launches_nonempty_entries w (base_cookies : loc) (h h' : store) tasks :
  deref h base_cookies !! PSID = None →
  cache_source w base_cookies h = (Return tasks, h') →
  h' = h ++ omap (scanned_dict w) (glob_cache w)
  ∧ tasks = seq (length h) (length (omap (scanned_dict w) (glob_cache w)))
  ∧ ∀ n d, omap (scanned_dict w) (glob_cache w) !! n = Some d →
           ∃ f v, f ∈ glob_cache w ∧ read_text w f = Return v ∧ v ≠ EmptyString
                  ∧ d = <[PSIDTS := v]> {[PSID := Str.drop 16 (Path.stem f)]}.
Proof.
  intros Hk. rewrite (cache_source_scan _ _ _ Hk).
  intros (ext & -> & _ & Hr)%scan_cache_spec.
  destruct (Hr tasks eq_refl) as [-> ->].
  split; [done|]. split; [done|].
  intros n d (f & Hf & Hd)%list_elem_of_lookup_2%list_elem_of_omap.
  unfold scanned_dict in Hd. destruct (read_text w f) as [v|] eqn:Hv; [|done].
  destruct (Str.truthy v) eqn:Ht; [|done]. injection Hd as <-.
  exists f, v. split; [done|]. split; [done|]. split; [|done].
  intros ->. done.
Qed.

(** X16. Without the identity key in the base cookies one unreadable cache
    entry aborts the whole call: the exception of the first failing read
    is raised even when other entries are valid, the browser is not
    consulted and no probe result is looked at. *)
Theorem X16_unreadable_entry_aborts_scan w (base_cookies : loc) (h : store)
    before f after e :
  deref h base_cookies !! PSID = None →
  glob_cache w = before ++ f :: after →
  (∀ f', f' ∈ before → ∃ v, read_text w f' = Return v) →
  read_text w f = Raise e →
  get_access_token w base_cookies h = (Raise e, h ++ omap (scanned_dict w) before).
Proof.
  intros Hk Hglob Hbefore Hf. apply get_access_token_collect_raise.
  rewrite collect_tasks_eq, (cache_source_scan _ _ _ Hk), Hglob.
  by rewrite (scan_cache_raise w before f after e h Hbefore Hf).
Qed.

(** X17. With the identity key in the base cookies and no browser
    candidate, only that identity is ever probed: every launched dict
    holds the base cookies' own [__Secure-1PSID] value, and cache files of
    other identities are never used. *)
Theorem X17_only_base_identity_probed w (base_cookies : loc) (h h' : store) k tasks :
  deref h base_cookies !! PSID = Some k →
  browser_ext w = [] →
  collect_tasks w base_cookies h = (Return tasks, h') →
  ∀ l, l ∈ tasks → deref h' l !! PSID = Some k.
Proof.
  intros Hk Hb. pose proof (deref_Some _ _ _ _ Hk) as Hlt.
  rewrite collect_tasks_eq, (cache_source_keyed _ _ _ _ Hk). cbv zeta.
  assert (∀ l, l ∈ direct_tasks h base_cookies → l = base_cookies) as Hd.
  { intros l. unfold direct_tasks. destruct (_ && _).
    - by intros ->%list_elem_of_singleton.
    - by intros ?%elem_of_nil. }
  destruct (is_file w _) as [[|]|e]; [|rewrite browser_source_ext, Hb|done].
  - destruct (read_text w _) as [v|e]; [|done].
    destruct (Str.truthy v); rewrite browser_source_ext, Hb; intros [= <- <-] l;
      cbn [length seq]; rewrite !app_nil_r.
    + intros [Hl%Hd|Hl%list_elem_of_singleton]%elem_of_app; subst l.
      * by rewrite deref_app_l.
      * rewrite deref_new. by rewrite lookup_insert_ne.
    + by intros ->%Hd.
  - intros [= <- <-] l. cbn [length seq]. rewrite !app_nil_r. by intros ->%Hd.
Qed.

(** ** The further properties at concrete runs *)

Lemma X1_witness :
  ∃ tasks (i : nat) response pre post,
    collect_tasks w_cached_only 0 [base_both] = (Return tasks, [base_both; merged_both])
    ∧ tasks !! i = Some 1
    ∧ client_get w_cached_only i (deref [base_both; merged_both] 1) = Return response
    ∧ is_success response = true
    ∧ text response = pre +:+ Re.marker_head +:+ "abc123" +:+ String Re.dquote post
    ∧ Str.contains Re.dquote "abc123" = false
    ∧ Str.contains Re.newline "abc123" = false.
Proof.
  refine (X1_returned_token_sound w_cached_only 0 [base_both]
            [base_both; merged_both] "abc123" 1 _).
  vm_compute. reflexivity.
Defined.

Lemma X2_witness :
  (get_access_token w_rejecting 0 [base_both]
   = (Raise (AuthError (auth_message (length [0; 1]))), [base_both; merged_both])
   ↔ ∀ i l tok, [0; 1] !! i = Some l
                → ¬ marker_bearing w_rejecting [base_both; merged_both] i l tok)
  ∧ ((∃ tok l, get_access_token w_rejecting 0 [base_both]
               = (Return (tok, l), [base_both; merged_both]))
     ↔ ∃ i l tok, [0; 1] !! i = Some l
                  ∧ marker_bearing w_rejecting [base_both; merged_both] i l tok).
Proof.
  refine (X2_fails_iff_no_candidate_valid w_rejecting 0 [base_both]
            [base_both; merged_both] [0; 1] _).
  vm_compute. reflexivity.
Defined.

Lemma X3_witness :
  get_access_token w_browser_first 0 [base_sid]
  = (Return ("zzz"%string, 2), [base_sid; merged_sid; browser_other]).
Proof.
  refine (X3_earliest_completion_wins w_browser_first 0 [base_sid]
            [base_sid; merged_sid; browser_other] [1; 2] [] 1 2 [(0, 1)] "zzz" _ _ _ _).
  - vm_compute. reflexivity.
  - vm_compute. reflexivity.
  - intros j l' tok' Hin. by apply elem_of_nil in Hin.
  - exists (ok_response (token_page "zzz")).
    split; [vm_compute; reflexivity|]. split; vm_compute; reflexivity.
Defined.

Lemma X6_witness :
  length [0; 1] ≤ match deref [base_both] 0 !! PSID with
                  | Some _ => 3
                  | None => length (glob_cache w_cached_only) + 1
                  end.
Proof.
  refine (X6_task_count_bound w_cached_only 0 [base_both]
            [base_both; merged_both] [0; 1] _).
  vm_compute. reflexivity.
Defined.

Lemma X7_witness :
  (1 = 0 ∧ has_key PSID (deref [base_both] 0) ∧ has_key PSIDTS (deref [base_both] 0))
  ∨ (length [base_both] ≤ 1 ∧ 1 < length [base_both; merged_both]).
Proof.
  refine (X7_returned_dict_alias w_cached_only 0 [base_both]
            [base_both; merged_both] "abc123" 1 _).
  vm_compute. reflexivity.
Defined.

Lemma X8_witness :
  [∅; scanned_sid] = [∅] ++ omap (scanned_dict w_scan) (glob_cache w_scan)
                       ++ browser_ext w_scan
  ∧ [1] = seq (length [(∅ : gmap string string)])
            (length (omap (scanned_dict w_scan) (glob_cache w_scan) ++ browser_ext w_scan))
  ∧ ∀ l, l ∈ [1] →
      length [(∅ : gmap string string)] ≤ l
      ∧ only_identity_keys (deref [∅; scanned_sid] l)
      ∧ ((∃ f v, f ∈ glob_cache w_scan ∧ read_text w_scan f = Return v
                 ∧ v ≠ EmptyString
                 ∧ deref [∅; scanned_sid] l
                   = <[PSIDTS := v]> {[PSID := Str.drop 16 (Path.stem f)]})
         ∨ (∃ browser_cookies, load_browser_cookies w_scan = Return browser_cookies
                               ∧ browser_dict browser_cookies
                                 = Some (deref [∅; scanned_sid] l))).
Proof.
  refine (X8_base_without_identity_not_sent w_scan 0 [∅] [∅; scanned_sid] [1] _ _).
  - reflexivity.
  - vm_compute. reflexivity.
Defined.

Lemma X9_witness :
  cache_source w_cached_only 0 [base_sid] = cache_source w_sid_among_others 0 [base_sid].
Proof.
  refine (X9_keyed_cache_reads_one_file w_cached_only w_sid_among_others 0 [base_sid]
            "sid" _ _ _ _).
  - reflexivity.
  - reflexivity.
  - vm_compute. reflexivity.
  - vm_compute. reflexivity.
Defined.

Lemma X10_witness :
  get_access_token w_unreadable 0 [base_sid]
  = (Raise (OtherError "PermissionError"), [base_sid]).
Proof.
  refine (X10_keyed_cache_failure_propagates w_unreadable 0 [base_sid] "sid"
            (OtherError "PermissionError") _ _).
  - reflexivity.
  - right. split; vm_compute; reflexivity.
Defined.

Lemma X11_witness :
  cache_source w_no_cache 0 [base_both] = (Return [], [base_both])
  ∧ collect_tasks w_no_cache 0 [base_both]
    = (Return (direct_tasks [base_both] 0
               ++ seq (length [base_both]) (length (browser_ext w_no_cache))),
       [base_both] ++ browser_ext w_no_cache).
Proof.
  refine (X11_missing_or_empty_cache_skipped w_no_cache 0 [base_both] "sid" _ _).
  - vm_compute. reflexivity.
  - left. vm_compute. reflexivity.
Defined.

Lemma X12_witness :
  cache_filename (Str.drop 16 (Path.stem (temp_dir ++ [".cached_1psidts_g.a000.txt"%string])))
  = ".cached_1psidts_g.a000.txt"%string.
Proof.
  refine (proj2 (X12_glob_matches_exactly_cache_names
                   ".cached_1psidts_g.a000.txt" temp_dir) _).
  vm_compute. reflexivity.
Defined.

Lemma X13_witness :
  ∃ d, browser_source w_browser_first [base_sid] = (Return [length [base_sid]], [base_sid] ++ [d])
       ∧ d !! PSID = Some "other"%string
       ∧ d !! PSIDTS = get_truthy browser_other PSIDTS
       ∧ ∀ k, k ≠ PSID → k ≠ PSIDTS → d !! k = None.
Proof.
  refine (proj2 (X13_browser_candidate_shape w_browser_first [base_sid] browser_other _)
            "other"%string _ _).
  - reflexivity.
  - vm_compute. reflexivity.
  - discriminate.
Defined.

Lemma X14_witness :
  attempt w_empty_token (0, 1) [base_sid; merged_sid]
  = (Return (Some (EmptyString, 1)), [base_sid; merged_sid]).
Proof.
  refine (X14_leftmost_marker_is_token w_empty_token 0 1 [base_sid; merged_sid]
            (ok_response (token_page EmptyString)) "<script>{" EmptyString "}</script>"
            _ _ _ _ _ _).
  - vm_compute. reflexivity.
  - vm_compute. reflexivity.
  - vm_compute. reflexivity.
  - intros n Hn.
    do 9 (destruct n as [|n]; [vm_compute; reflexivity|]).
    cbn [String.length] in Hn. lia.
  - reflexivity.
  - reflexivity.
Defined.

Lemma X15_witness :
  [∅; scanned_sid] = [∅] ++ omap (scanned_dict w_scan) (glob_cache w_scan)
  ∧ [1] = seq (length [(∅ : gmap string string)])
            (length (omap (scanned_dict w_scan) (glob_cache w_scan)))
  ∧ ∀ n d, omap (scanned_dict w_scan) (glob_cache w_scan) !! n = Some d →
           ∃ f v, f ∈ glob_cache w_scan ∧ read_text w_scan f = Return v
                  ∧ v ≠ EmptyString
                  ∧ d = <[PSIDTS := v]> {[PSID := Str.drop 16 (Path.stem f)]}.
Proof.
  refine (X15_scan_launches_nonempty_entries w_scan 0 [∅] [∅; scanned_sid] [1] _ _).
  - reflexivity.
  - vm_compute. reflexivity.
Defined.

Lemma X16_witness :
  get_access_token w_scan_broken 0 [∅]
  = (Raise (OtherError "IsADirectoryError"),
     [∅] ++ omap (scanned_dict w_scan_broken) [temp_dir ++ [".cached_1psidts_a.txt"%string]]).
Proof.
  refine (X16_unreadable_entry_aborts_scan w_scan_broken 0 [∅]
            [temp_dir ++ [".cached_1psidts_a.txt"%string]]
            (temp_dir ++ [".cached_1psidts_b.txt"%string])
            [temp_dir ++ [".cached_1psidts_c.txt"%string]]
            (OtherError "IsADirectoryError") _ _ _ _).
  - reflexivity.
  - vm_compute. reflexivity.
  - intros f' Hf'%list_elem_of_singleton. subst f'. eexists. vm_compute. reflexivity.
  - vm_compute. reflexivity.
Defined.

Lemma X17_witness :
  deref [base_both; merged_both] 1 !! PSID = Some "sid"%string.
Proof.
  refine (X17_only_base_identity_probed w_cached_only 0 [base_both]
            [base_both; merged_both] "sid" [0; 1] _ _ _ 1 _).
  - vm_compute. reflexivity.
  - vm_compute. reflexivity.
  - vm_compute. reflexivity.
  - apply list_elem_of_further, list_elem_of_here.
Defined.

(** X18. The cache accesses are the only unguarded step.  The collection
    of candidates completes exactly when the accesses to the cache that
    the call performs for its base cookies succeed (the keyed entry with
    the identity key, the globbed entries without it; other files do not
    matter), and then the call raises nothing but [AuthError], whatever
    the browser loader and the probes do. *)
Theorem X18_only_AuthError_when_cache_accesses_succeed w (base_cookies : loc) (h : store) :
  (cache_accesses_succeed w h base_cookies
   ↔ ∃ tasks h', collect_tasks w base_cookies h = (Return tasks, h'))
  ∧ (cache_accesses_succeed w h base_cookies →
     raises_only_AuthError (get_access_token w base_cookies h).1).
Proof.
  split; [apply collect_tasks_no_raise|].
  intros (tasks & h1 & Hc)%collect_tasks_no_raise e.
  rewrite (get_access_token_eq _ _ _ _ _ Hc).
  destruct (race_total w (as_completed (schedule w) (launch tasks)) h1) as [[found|] ->];
    cbn [fst]; [done|].
  intros [= <-]. by eexists.
Qed.

(** An unreadable cache entry of another identity does not matter. *)
Lemma X18_witness :
  raises_only_AuthError (get_access_token w_sid_among_others 0 [base_sid]).1.
Proof.
  refine (proj2 (X18_only_AuthError_when_cache_accesses_succeed
                   w_sid_among_others 0 [base_sid]) _).
  split; [by eexists|]. intros _. eexists. vm_compute. reflexivity.
Defined.
